(** * The question detector and navigator of claude_question_handler.py

    A shallow embedding of [strip_ansi], [parse_multiple_choice],
    [get_screen_text], [find_claude_session], [send_answer] and
    [watch_for_questions], followed by the properties the specification
    states about them.

    Python values are modelled as follows.
    - [str] is a list of Unicode code points ([pystr]).
    - [int] is [Z]; list positions produced by [enumerate] and [range] are
      [nat] and are injected into [Z] where the source does arithmetic.
    - The regular expressions are written as terms of [Re.re] and run by a
      backtracking matcher with Python's greedy, leftmost-first order.
    - An iTerm2 session is its id together with the rows of its screen, or
      no rows when reading the screen raises.
    - [async_send_text] and [asyncio.sleep] are recorded in a trace. *)

From stdpp Require Import base list gmap strings.
From Stdlib Require Import ZArith NArith Ascii String Lia.

Local Open Scope N_scope.

(** ** Python's [str] and its built-in operations *)

Module Py.

Definition pystr := list N.

(** Literals: a Rocq string holds UTF-8 bytes; [U] decodes them into code
    points, so that [U "☐"] is the one-character string U+2610. *)
Fixpoint bytes_of (s : string) : list N :=
  match s with
  | EmptyString => []
  | String a s' => N_of_ascii a :: bytes_of s'
  end.

Fixpoint utf8_decode (bs : list N) : pystr :=
  match bs with
  | [] => []
  | b0 :: r0 =>
    if b0 <? 128 then b0 :: utf8_decode r0
    else match r0 with
    | [] => [b0]
    | b1 :: r1 =>
      if b0 <? 224 then ((b0 - 192) * 64 + (b1 - 128)) :: utf8_decode r1
      else match r1 with
      | [] => [b0; b1]
      | b2 :: r2 =>
        if b0 <? 240
        then ((b0 - 224) * 4096 + (b1 - 128) * 64 + (b2 - 128)) :: utf8_decode r2
        else match r2 with
        | [] => [b0; b1; b2]
        | b3 :: r3 =>
          ((b0 - 240) * 262144 + (b1 - 128) * 4096 + (b2 - 128) * 64 + (b3 - 128))
            :: utf8_decode r3
        end
      end
    end
  end.

Definition U (s : string) : pystr := utf8_decode (bytes_of s).

Definition LF : N := 10.
Definition CR : N := 13.
Definition ESC : N := 27.

(** [c in s] for a one-character [c]. *)
Definition has (c : N) (s : pystr) : bool := existsb (N.eqb c) s.

(** [str.isspace] on one character, which is also what [\s] and
    [str.strip()] test (Unicode 14 tables of CPython 3.11). *)
Definition whitespace : list N :=
  [9; 10; 11; 12; 13; 28; 29; 30; 31; 32; 133; 160; 5760;
   8192; 8193; 8194; 8195; 8196; 8197; 8198; 8199; 8200; 8201; 8202;
   8232; 8233; 8239; 8287; 12288].

Definition isspace (c : N) : bool := has c whitespace.

(** [str.isdecimal] on one character, which is what [\d] tests: the
    decimal digits of Unicode come in runs of ten, listed by their zero. *)
Definition decimal_zeros : list N :=
  [48; 1632; 1776; 1984; 2406; 2534; 2662; 2790; 2918; 3046; 3174; 3302;
   3430; 3558; 3664; 3792; 3872; 4160; 4240; 6112; 6160; 6470; 6608; 6784;
   6800; 6992; 7088; 7232; 7248; 42528; 43216; 43264; 43472; 43504; 43600;
   44016; 65296; 66720; 68912; 69734; 69872; 69942; 70096; 70384; 70736;
   70864; 71248; 71360; 71472; 71904; 72016; 72784; 73040; 73120; 92768;
   92864; 93008; 120782; 120792; 120802; 120812; 120822; 123200; 123632;
   125264; 130032].

Definition in_run (c z : N) : bool := (z <=? c) && (c <? z + 10).

Definition isdecimal (c : N) : bool := existsb (in_run c) decimal_zeros.

Definition digit_value (c : N) : N :=
  match find (in_run c) decimal_zeros with
  | Some z => c - z
  | None => 0
  end.

(** [int(s)] for a string of decimal digits (the only use in the source is
    on the text of a [\d+] group). The interpreter's optional limit on the
    number of digits is not modelled. *)
Definition int (s : pystr) : Z :=
  Z.of_N (fold_left (fun acc c => acc * 10 + digit_value c) s 0).

(** [s.strip()] *)
Fixpoint lstrip (s : pystr) : pystr :=
  match s with
  | c :: s' => if isspace c then lstrip s' else s
  | [] => []
  end.

Definition rstrip (s : pystr) : pystr := rev (lstrip (rev s)).

Definition strip (s : pystr) : pystr := rstrip (lstrip s).

(** [s.startswith(p)] *)
Fixpoint startswith (p s : pystr) : bool :=
  match p, s with
  | [], _ => true
  | a :: p', b :: s' => (a =? b) && startswith p' s'
  | _ :: _, [] => false
  end.

(** [p in s] for strings. *)
Fixpoint contains (p s : pystr) : bool :=
  startswith p s ||
  match s with
  | [] => false
  | _ :: s' => contains p s'
  end.

(** [s.lower()]. Only 'A'..'Z', U+0130 and U+212A have a lowercase form
    with an ASCII character in it; the lowercase forms of all other code
    points lie outside ASCII, and they are left in place here: the source
    uses [lower] only to look for an ASCII phrase. *)
Definition lower_char (c : N) : pystr :=
  if (65 <=? c) && (c <=? 90) then [c + 32]
  else if c =? 304 then [105; 775]
  else if c =? 8490 then [107]
  else [c].

Definition lower (s : pystr) : pystr := flat_map lower_char s.

(** [s.split(sep)] for a one-character separator. *)
Fixpoint split (sep : N) (s : pystr) : list pystr :=
  match s with
  | [] => [[]]
  | c :: s' =>
    if c =? sep then [] :: split sep s'
    else match split sep s' with
         | l :: ls => (c :: l) :: ls
         | [] => [[c]]
         end
  end.

(** [s.split(sep, 1)[1]] when [sep in s]: what follows the first [sep]. *)
Fixpoint after_first (sep : N) (s : pystr) : pystr :=
  match s with
  | [] => []
  | c :: s' => if c =? sep then s' else after_first sep s'
  end.

(** [sep.join(parts)] for a one-character separator. *)
Fixpoint join (sep : N) (parts : list pystr) : pystr :=
  match parts with
  | [] => []
  | [p] => p
  | p :: rest => p ++ sep :: join sep rest
  end.

(** Truth value of a string, and of an optional string argument. *)
Definition truthy (s : pystr) : bool :=
  match s with [] => false | _ :: _ => true end.

Definition truthy_opt (o : option pystr) : bool :=
  match o with Some s => truthy s | None => false end.

(** [range(a, b)] *)
Definition range (a b : nat) : list nat := seq a (b - a).

End Py.

Import Py.

(** ** Regular expressions with Python's matching order *)

Module Re.

Inductive re : Type :=
  | Class (p : N -> bool)      (* one character of a class *)
  | Star (p : N -> bool)       (* [p*], greedy *)
  | Seq (r1 r2 : re)
  | Alt (r1 r2 : re)           (* [r1|r2], left first *)
  | Group (n : nat) (r : re)   (* capturing group number [n] *)
  | Bol                        (* [^] *)
  | Eol                        (* [$] *)
  | Eps.

Definition Chr (c : N) : re := Class (N.eqb c).
Definition Plus (p : N -> bool) : re := Seq (Class p) (Star p).
Definition Opt (r : re) : re := Alt r Eps.

(** A match: where it ends, the text left after it, and the groups. *)
Record match_object := {
  m_end : nat;
  m_rest : pystr;
  m_groups : list (nat * pystr) }.

Section matcher.
Context {R : Type}.

(** Greedy repetition: take as many characters as possible, give one
    back at a time while the continuation fails. *)
Fixpoint star (p : N -> bool) (pos : nat) (s : pystr)
    (k : nat -> pystr -> option R) : option R :=
  match s with
  | c :: s' =>
    if p c then
      match star p (S pos) s' k with
      | Some r => Some r
      | None => k pos s
      end
    else k pos s
  | [] => k pos s
  end.

Fixpoint run (r : re) (pos : nat) (s : pystr) (g : list (nat * pystr))
    (k : nat -> pystr -> list (nat * pystr) -> option R) : option R :=
  match r with
  | Class p =>
    match s with
    | c :: s' => if p c then k (S pos) s' g else None
    | [] => None
    end
  | Star p => star p pos s (fun pos' s' => k pos' s' g)
  | Seq r1 r2 => run r1 pos s g (fun pos' s' g' => run r2 pos' s' g' k)
  | Alt r1 r2 =>
    match run r1 pos s g k with
    | Some x => Some x
    | None => run r2 pos s g k
    end
  | Group n r1 =>
    run r1 pos s g (fun pos' s' g' => k pos' s' ((n, take (pos' - pos) s) :: g'))
  | Bol => if Nat.eqb pos 0 then k pos s g else None
  | Eol =>
    match s with
    | [] => k pos s g
    | [c] => if c =? LF then k pos s g else None
    | _ => None
    end
  | Eps => k pos s g
  end.
End matcher.

(** The match of [r] that starts at position [pos], where [s] is the text
    from [pos] on. *)
Definition match_at (r : re) (pos : nat) (s : pystr) : option match_object :=
  run r pos s [] (fun e s' g => Some {| m_end := e; m_rest := s'; m_groups := g |}).

(** [re.match(r, s)] *)
Definition match_ (r : re) (s : pystr) : option match_object := match_at r 0 s.

(** [re.search(r, s)]: the match at the leftmost position that has one. *)
Fixpoint search_from (r : re) (pos : nat) (s : pystr) : option match_object :=
  match match_at r pos s with
  | Some m => Some m
  | None =>
    match s with
    | [] => None
    | _ :: s' => search_from r (S pos) s'
    end
  end.

Definition search (r : re) (s : pystr) : option match_object := search_from r 0 s.

(** Whether a match object was returned. *)
Definition matched {A : Type} (o : option A) : bool :=
  match o with Some _ => true | None => false end.

(** [m.group(n)] for a group that took part in the match. *)
Definition group (n : nat) (m : match_object) : pystr :=
  match find (fun e => Nat.eqb (fst e) n) (m_groups m) with
  | Some e => snd e
  | None => []
  end.

(** [r.sub('', s)]: the text outside the leftmost non-overlapping matches.
    [skip] counts the characters of the current match still to drop. *)
Fixpoint sub_from (r : re) (skip pos : nat) (s : pystr) : pystr :=
  match s with
  | [] => []
  | c :: s' =>
    match skip with
    | S n => sub_from r n (S pos) s'
    | O =>
      match match_at r pos s with
      | Some m =>
        match m_end m - pos with
        | O => c :: sub_from r 0 (S pos) s'
        | S n => sub_from r n (S pos) s'
        end
      | None => c :: sub_from r 0 (S pos) s'
      end
    end
  end%nat.

Definition sub_empty (r : re) (s : pystr) : pystr := sub_from r 0 0 s.

End Re.

(** ** The data model of a detected question *)

Record QuestionOption := {
  number : Z;
  label : pystr;
  description : pystr;
  is_selected : bool;
  is_text_input : bool }.

Record DetectedQuestion := {
  header : pystr;
  question : pystr;
  options : list QuestionOption;
  selected_index : Z;
  has_text_option : bool }.

(** Python's [len], as an [int]. *)
Definition len {A : Type} (l : list A) : Z := Z.of_nat (List.length l).

(** ** [strip_ansi] *)

Definition CHECKBOX : N := 9744.        (* ☐ *)
Definition CHECKED : N := 9745.         (* ☑ *)
Definition SELECTOR : N := 10095.       (* ❯ *)
Definition GT : N := 62.                (* > *)

Definition between (a b c : N) : bool := (a <=? c) && (c <=? b).

(** The patterns are written spaced out, as under re.VERBOSE.
    [\x1B (?: [@-Z\\-_] | \[ [0-?]* [\x20-/]* [@-~] )] *)
Definition is_fe (c : N) : bool := between 64 90 c || between 92 95 c.
Definition is_param (c : N) : bool := between 48 63 c.
Definition is_inter (c : N) : bool := between 32 47 c.
Definition is_final (c : N) : bool := between 64 126 c.
Definition LBRACKET : N := 91.

Definition ansi_escape : Re.re :=
  Re.Seq (Re.Chr ESC)
    (Re.Alt
       (Re.Class is_fe)
       (Re.Seq (Re.Chr LBRACKET)
          (Re.Seq (Re.Star is_param)
             (Re.Seq (Re.Star is_inter)
                (Re.Class is_final))))).

Definition strip_ansi (text : pystr) : pystr := Re.sub_empty ansi_escape text.

(** ** [parse_multiple_choice] *)

Definition any_char (c : N) : bool := negb (c =? LF).        (* [.] *)
Definition is_checkbox (c : N) : bool := (c =? CHECKBOX) || (c =? CHECKED).
Definition is_marker (c : N) : bool := (c =? SELECTOR) || (c =? GT).

(** [[☐☑] \s* ( .+ )] *)
Definition header_re : Re.re :=
  Re.Seq (Re.Class is_checkbox)
    (Re.Seq (Re.Star isspace) (Re.Group 1 (Re.Plus any_char))).

(** [^ [❯>\s]* \d+ \.] *)
Definition option_start_re : Re.re :=
  Re.Seq Re.Bol
    (Re.Seq (Re.Star (fun c => is_marker c || isspace c))
       (Re.Seq (Re.Plus isdecimal) (Re.Chr 46))).

(** [^ ( \s* [❯>]? \s* ) ( \d+ ) \. \s* ( .+ ) $] *)
Definition option_re : Re.re :=
  Re.Seq Re.Bol
    (Re.Seq
       (Re.Group 1
          (Re.Seq (Re.Star isspace)
             (Re.Seq (Re.Opt (Re.Class is_marker)) (Re.Star isspace))))
       (Re.Seq (Re.Group 2 (Re.Plus isdecimal))
          (Re.Seq (Re.Chr 46)
             (Re.Seq (Re.Star isspace)
                (Re.Seq (Re.Group 3 (Re.Plus any_char)) Re.Eol))))).

Definition ENTER_TO_SELECT : pystr := U "Enter to select".
Definition TAB_ARROW : pystr := U "Tab/Arrow".
Definition TYPE_SOMETHING : pystr := U "type something".

(** The first loop: the first line with a checkbox on which the header
    pattern matches, with its index. [None] stands for [header_idx == -1]. *)
Fixpoint find_header (i : nat) (lines : list pystr) : option (nat * pystr) :=
  match lines with
  | [] => None
  | line :: rest =>
    if has CHECKBOX line || has CHECKED line then
      match Re.search header_re line with
      | Some m => Some (i, strip (Re.group 1 m))
      | None => find_header (S i) rest
      end
    else find_header (S i) rest
  end.

(** The second loop, over the indices it ranges over. [None] stands for a
    [question] left at [None]. *)
Fixpoint find_question (lines : list pystr) (idxs : list nat) : option (nat * pystr) :=
  match idxs with
  | [] => None
  | i :: rest =>
    let line := strip (nth i lines []) in
    if negb (truthy line) then find_question lines rest
    else if Re.matched (Re.match_ option_start_re line) then None
    else if truthy line && negb (startswith ENTER_TO_SELECT line) then Some (i, line)
    else find_question lines rest
  end.

(** The variables of the third loop. *)
Record scan_state := {
  st_options : list QuestionOption;
  st_selected_index : Z;
  st_current_option : option QuestionOption }.

Definition with_description (o : QuestionOption) (d : pystr) : QuestionOption :=
  {| number := number o; label := label o; description := d;
     is_selected := is_selected o; is_text_input := is_text_input o |}.

(** [options.append(current_option)] when there is a current option. *)
Definition flush (st : scan_state) : list QuestionOption :=
  match st_current_option st with
  | Some cur => st_options st ++ [cur]
  | None => st_options st
  end.

(** One iteration of the third loop on a line that is not a footer. *)
Definition scan_line (line : pystr) (st : scan_state) : scan_state :=
  match Re.match_ option_re line with
  | Some m =>
    let options := flush st in
    let prefix := Re.group 1 m in
    let num := int (Re.group 2 m) in
    let label := strip (Re.group 3 m) in
    let is_selected := has SELECTOR prefix || has GT prefix in
    let is_text_input := contains TYPE_SOMETHING (lower label) in
    {| st_options := options;
       st_selected_index := if is_selected then len options else st_selected_index st;
       st_current_option :=
         Some {| number := num; label := label; description := [];
                 is_selected := is_selected; is_text_input := is_text_input |} |}
  | None =>
    match st_current_option st with
    | Some cur =>
      if truthy (strip line) then
        let desc := strip line in
        {| st_options := st_options st;
           st_selected_index := st_selected_index st;
           st_current_option :=
             Some (with_description cur
                     (if truthy (description cur)
                      then description cur ++ U " " ++ desc
                      else desc)) |}
      else st
    | None => st
    end
  end.

(** The third loop, over the indices it ranges over; it stops at a footer. *)
Fixpoint scan_options (lines : list pystr) (idxs : list nat) (st : scan_state) : scan_state :=
  match idxs with
  | [] => st
  | i :: rest =>
    let line := nth i lines [] in
    if contains ENTER_TO_SELECT line || contains TAB_ARROW line then st
    else scan_options lines rest (scan_line line st)
  end.

Definition parse_multiple_choice (screen_text : pystr) : option DetectedQuestion :=
  let lines := split LF screen_text in
  match find_header 0 lines with
  | None => None
  | Some (header_idx, header) =>
    match find_question lines
            (range (header_idx + 1) (Nat.min (header_idx + 10) (List.length lines))) with
    | None => None
    | Some (question_idx, question) =>
      let st := scan_options lines (range (question_idx + 1) (List.length lines))
                  {| st_options := []; st_selected_index := 0;
                     st_current_option := None |} in
      let options := flush st in
      match options with
      | [] => None
      | _ :: _ =>
        Some {| header := header; question := question; options := options;
                selected_index := st_selected_index st;
                has_text_option := existsb is_text_input options |}
      end
    end
  end.

(** The screen of the documented example, row by row. *)
Definition example_rows : list pystr :=
  [ U "☐ Next task";
    U "";
    U "What should I work on?";
    U "";
    U "❯ 1. Fix the bug";
    U "     Investigate the crash";
    U "  2. Write tests";
    U "  3. Type something.";
    U "";
    U "Enter to select · Tab/Arrow keys to navigate · Esc to cancel" ].

Definition example_screen : pystr := join LF example_rows.

(** ** iTerm2 sessions *)

(** A session: its id, and the rows of its screen ([contents.line(i).string]
    for each [i]); no rows when [async_get_screen_contents] raises. *)
Record Session := {
  session_id : pystr;
  screen : option (list pystr) }.

Record Tab := { sessions : list Session }.
Record Window := { tabs : list Tab }.
Record App := { terminal_windows : list Window }.

(** [None] stands for an exception raised by the call. *)
Definition get_screen_text (session : Session) : option pystr :=
  match screen session with
  | Some lines => Some (join LF lines)
  | None => None
  end.

Definition COLON : N := 58.

(** The id of the session the script runs in, from the value of
    [ITERM_SESSION_ID] (the module exits at import when it is not set). *)
Definition own_session_id (env : pystr) : pystr :=
  if has COLON env then after_first COLON env else env.

(** A [for] loop whose body may [return]: the first value returned. *)
Fixpoint first_of {A B : Type} (body : A -> option B) (l : list A) : option B :=
  match l with
  | [] => None
  | x :: rest =>
    match body x with
    | Some y => Some y
    | None => first_of body rest
    end
  end.

(** The body of the innermost loop of [find_claude_session]. *)
Definition check_session (session_id' : pystr) (session : Session) : option Session :=
  if bool_decide (session_id session = session_id') then None
  else match get_screen_text session with
       | Some screen_text =>
         if has SELECTOR screen_text || has CHECKBOX screen_text
         then Some session else None
       | None => None
       end.

Definition find_claude_session (env : pystr) (app : App) : option Session :=
  let session_id' := own_session_id env in
  first_of (fun window =>
    first_of (fun tab =>
      first_of (check_session session_id') (sessions tab))
      (tabs window))
    (terminal_windows app).

(** [app.get_session_by_id] of the iterm2 package: the session with that
    id, in the same enumeration order. *)
Definition get_session_by_id (app : App) (id : pystr) : option Session :=
  first_of (fun window =>
    first_of (fun tab =>
      first_of (fun session =>
        if bool_decide (session_id session = id) then Some session else None)
        (sessions tab))
      (tabs window))
    (terminal_windows app).

(** ** [send_answer] *)

(** What the function does to the session and to the clock, in order:
    [async_send_text(text)] and [asyncio.sleep] (in milliseconds). *)
Inductive io : Type :=
  | SendText (text : pystr)
  | Sleep (ms : N).

Definition DOWN : pystr := [27; 91; 66].     (* "\x1b[B" *)
Definition UP : pystr := [27; 91; 65].       (* "\x1b[A" *)
Definition ENTER : pystr := [13].            (* "\r" *)

(** The dictionaries the function returns. *)
Inductive answer : Type :=
  | no_claude_session
  | no_question
  | invalid_choice (choice : Z) (n : Z)
  | no_action
  | typed_text (text : pystr)
  | selected_option (choice : Z) (label : pystr).

(** [for _ in range(n): send(key); sleep(0.05)] *)
Fixpoint press (key : pystr) (n : nat) : list io :=
  match n with
  | O => []
  | S n' => SendText key :: Sleep 50 :: press key n'
  end.

(** The [if moves > 0 ... elif moves < 0 ...] block of both branches. *)
Definition navigate (moves : Z) : list io :=
  if (moves >? 0)%Z then press DOWN (Z.to_nat moves)
  else if (moves <? 0)%Z then press UP (Z.to_nat (Z.abs moves))
  else [].

(** The first [i] with [options[i].is_text_input], counting from [i]. *)
Fixpoint text_option_idx (i : nat) (opts : list QuestionOption) : option nat :=
  match opts with
  | [] => None
  | opt :: rest => if is_text_input opt then Some i else text_option_idx (S i) rest
  end.

(** The function from the point where [question] is known. The first
    component is the value returned, [None] for an exception. *)
Definition answer_question (question : DetectedQuestion)
    (choice : option Z) (text : option pystr) : option answer * list io :=
  let otherwise :=
    match choice with
    | Some choice =>
      let target_idx := (choice - 1)%Z in
      if (target_idx <? 0)%Z || (target_idx >=? len (options question))%Z
      then (Some (invalid_choice choice (len (options question))), [])
      else
        let moves := (target_idx - selected_index question)%Z in
        let trace := navigate moves ++ [Sleep 100; SendText ENTER] in
        match options question !! Z.to_nat target_idx with
        | Some selected => (Some (selected_option choice (label selected)), trace)
        | None => (None, trace)
        end
    | None => (Some no_action, [])
    end in
  match text with
  | Some text =>
    if truthy text then
      let arrive :=
        match text_option_idx 0 (options question) with
        | Some idx =>
          navigate (Z.of_nat idx - selected_index question)%Z ++ [Sleep 100]
        | None => []
        end in
      (Some (typed_text text),
       arrive ++ [SendText ENTER; Sleep 200; SendText text; Sleep 100; SendText ENTER])
    else otherwise
  | None => otherwise
  end.

(** The session the function works on: the one named by a non-empty
    [target_session_id], the one found otherwise. *)
Definition target_session (env : pystr) (app : App)
    (target_session_id : option pystr) : option Session :=
  match target_session_id with
  | Some id => if truthy id then get_session_by_id app id
               else find_claude_session env app
  | None => find_claude_session env app
  end.

Definition send_answer (env : pystr) (app : App) (choice : option Z)
    (text : option pystr) (target_session_id : option pystr)
    : option answer * list io :=
  match target_session env app target_session_id with
  | None => (Some no_claude_session, [])
  | Some session =>
    match get_screen_text session with
    | None => (None, [])
    | Some screen_text =>
      let clean_text := strip_ansi screen_text in
      match parse_multiple_choice clean_text with
      | None => (Some no_question, [])
      | Some question => answer_question question choice text
      end
    end
  end.

(** ** [watch_for_questions] *)

(** A printed [question_detected] event: the session id and the fields of
    the question. *)
Record event := {
  ev_session_id : pystr;
  ev_question : DetectedQuestion }.

Record watch_state := {
  seen_questions : gset pystr;
  printed : list event }.

(** A loop whose body may make the function return: the state, and
    whether it returned. *)
Fixpoint for_each {A S : Type} (body : A -> S -> S * bool) (l : list A) (st : S)
    : S * bool :=
  match l with
  | [] => (st, false)
  | x :: rest =>
    let '(st', returned) := body x st in
    if returned then (st', true) else for_each body rest st'
  end.

(** The body of the innermost loop. *)
Definition watch_session (once : bool) (current_session_id : pystr)
    (session : Session) (st : watch_state) : watch_state * bool :=
  if bool_decide (session_id session = current_session_id) then (st, false)
  else
    match get_screen_text session with
    | None => (st, false)
    | Some screen_text =>
      let clean_text := strip_ansi screen_text in
      match parse_multiple_choice clean_text with
      | None => (st, false)
      | Some question' =>
        let key := session_id session ++ U ":" ++ question question' in
        if bool_decide (key ∈ seen_questions st) then (st, false)
        else
          ({| seen_questions := {[key]} ∪ seen_questions st;
              printed := printed st ++
                [{| ev_session_id := session_id session;
                    ev_question := question' |}] |},
           once)
      end
    end.

(** One pass of the [while True] loop over the sessions of the app. *)
Definition watch_tick (once : bool) (current_session_id : pystr) (app : App)
    (st : watch_state) : watch_state * bool :=
  for_each (fun window =>
    for_each (fun tab =>
      for_each (watch_session once current_session_id) (sessions tab))
      (tabs window))
    (terminal_windows app) st.

(** The loop, run over the successive states of the app that its passes
    see. It has returned, or it is still polling when they are used up. *)
Definition watch_for_questions (env : pystr) (once : bool) (ticks : list App)
    : watch_state * bool :=
  for_each (watch_tick once (own_session_id env)) ticks
    {| seen_questions := ∅; printed := [] |}.

(** ** The specification's vocabulary for answers *)

Inductive direction : Type := up | down.

Inductive NavigationAction : Type :=
  | MoveSelection (d : direction) (count : nat)
  | Confirm
  | EmitText (content : pystr).

(** The keystrokes that replay an action: one key dispatch per step of a
    move, Enter for a confirmation, the text itself. *)
Definition keys_of_action (a : NavigationAction) : list pystr :=
  match a with
  | MoveSelection down n => repeat DOWN n
  | MoveSelection up n => repeat UP n
  | Confirm => [ENTER]
  | EmitText content => [content]
  end.

Definition keys_of_plan (plan : list NavigationAction) : list pystr :=
  flat_map keys_of_action plan.

(** The plan for an option target, in the words of the specification. *)
Definition plan_option (selectedIndex targetIndex : Z) : list NavigationAction :=
  let delta := (targetIndex - selectedIndex)%Z in
  (if (delta >? 0)%Z then [MoveSelection down (Z.to_nat delta)]
   else if (delta <? 0)%Z then [MoveSelection up (Z.to_nat (- delta))]
   else []) ++ [Confirm].

(** The texts sent to the session, in order. *)
Fixpoint sent (trace : list io) : list pystr :=
  match trace with
  | [] => []
  | SendText text :: rest => text :: sent rest
  | Sleep _ :: rest => sent rest
  end.

(** How many times [key] is among the texts sent. *)
Definition presses (key : pystr) (keys : list pystr) : Z :=
  len (filter (fun k => k = key) keys).

(** All the sessions of an app, in enumeration order. *)
Definition all_sessions (app : App) : list Session :=
  flat_map (fun window => flat_map sessions (tabs window)) (terminal_windows app).

(** An app with one window and one tab. *)
Definition one_tab (l : list Session) : App :=
  {| terminal_windows := [ {| tabs := [ {| sessions := l |} ] |} ] |}.

Definition example_session : Session :=
  {| session_id := U "w0t1p0"; screen := Some example_rows |}.

Definition unreadable_session : Session :=
  {| session_id := U "w0t0p1"; screen := None |}.

Definition EXAMPLE_ENV : pystr := U "w0t0p0:4F2A".

(** The question on the example screen. *)
Definition example_question : DetectedQuestion :=
  {| header := U "Next task";
     question := U "What should I work on?";
     options :=
       [ {| number := 1; label := U "Fix the bug";
            description := U "Investigate the crash";
            is_selected := true; is_text_input := false |};
         {| number := 2; label := U "Write tests"; description := U "";
            is_selected := false; is_text_input := false |};
         {| number := 3; label := U "Type something."; description := U "";
            is_selected := false; is_text_input := true |} ];
     selected_index := 0;
     has_text_option := true |}.

(** ** Definitions used to state and prove the properties *)

(** What the third loop maintains: the selected index is 0 or the position
    of an option already read, and it is 0 unless some option read so far
    carried the marker. *)
Definition scan_inv (st : scan_state) : Prop :=
  (0 <= st_selected_index st)%Z /\
  (st_selected_index st = 0%Z \/ (st_selected_index st < len (flush st))%Z) /\
  (Forall (fun o => is_selected o = false) (flush st) -> st_selected_index st = 0%Z).

(** The key under which a session's question is remembered, when the loop
    reads a question on it. *)
Definition session_key (cur : pystr) (s : Session) : option pystr :=
  if bool_decide (session_id s = cur) then None
  else
    match get_screen_text s with
    | None => None
    | Some screen_text =>
      match parse_multiple_choice (strip_ansi screen_text) with
      | None => None
      | Some q => Some (session_id s ++ U ":" ++ question q)
      end
    end.

(** A sequence the pattern recognizes: a text that it matches entirely. *)
Definition recognized (seq : pystr) : bool :=
  match Re.match_ ansi_escape seq with
  | Some m => negb (truthy (Re.m_rest m))
  | None => false
  end.

(** The characters left alone whatever surrounds them: every character
    below U+0020 other than ESC, and every character above U+007E; among
    them the line feed and the glyphs of the prompt. *)
Definition always_kept (c : N) : bool :=
  negb (c =? ESC) && ((c <? 32) || (126 <? c)).

(** The control characters that are not usual white space. *)
Definition raw_control (c : N) : bool :=
  ((c <? 32) && negb ((c =? 9) || (c =? LF) || (c =? CR))) || (c =? 127).

(** An OSC sequence that sets the window title, ended by a bell. *)
Definition osc_title : pystr := [ESC] ++ U "]0;title" ++ [7].

(** The shift to the ASCII character set. *)
Definition charset_shift : pystr := [ESC] ++ U "(B".

(** Greedy repetition, run directly: where it stops and what is left. *)
Fixpoint skip (p : N -> bool) (pos : nat) (s : pystr) : nat * pystr :=
  match s with
  | c :: s' => if p c then skip p (S pos) s' else (pos, s)
  | [] => (pos, s)
  end.

(** The match of [ansi_escape] at the head of [s], run directly: where it
    ends and what is left. *)
Definition ansi_match (pos : nat) (s : pystr) : option (nat * pystr) :=
  match s with
  | c0 :: c :: rest =>
    if ESC =? c0 then
      if is_fe c then Some (S (S pos), rest)
      else if LBRACKET =? c then
        let '(p1, r1) := skip is_param (S (S pos)) rest in
        let '(p2, r2) := skip is_inter p1 r1 in
        match r2 with
        | f :: r3 => if is_final f then Some (S p2, r3) else None
        | [] => None
        end
      else None
    else None
  | _ => None
  end.

(** ** [detect_question] *)

(** The dictionaries the function returns. A found question carries the
    fields of the question. *)
Inductive detection : Type :=
  | detect_no_claude_session
  | detect_found (session_id' : pystr) (q : DetectedQuestion)
  | detect_not_found (session_id' : pystr) (raw_screen : pystr).

(** [None] stands for an exception raised by the read of the screen. *)
Definition detect_question (env : pystr) (app : App)
    (target_session_id : option pystr) : option detection :=
  match target_session env app target_session_id with
  | None => Some detect_no_claude_session
  | Some session =>
    match get_screen_text session with
    | None => None
    | Some screen_text =>
      let clean_text := strip_ansi screen_text in
      match parse_multiple_choice clean_text with
      | Some question => Some (detect_found (session_id session) question)
      | None => Some (detect_not_found (session_id session) (take 2000 clean_text))
      end
    end
  end.

(** ** [list_sessions] *)

(** An element of the list printed: the fields of a session that was read,
    or the id of one whose read raised (the text of the exception is not
    modelled). *)
Inductive session_entry : Type :=
  | entry (session_id' : pystr) (is_current has_question : bool)
      (question_text : option pystr) (preview : pystr)
  | entry_error (session_id' : pystr).

(** [[l.strip() for l in lines if l.strip()]] *)
Fixpoint stripped_lines (lines : list pystr) : list pystr :=
  match lines with
  | [] => []
  | l :: rest =>
    if truthy (strip l) then strip l :: stripped_lines rest
    else stripped_lines rest
  end.

Definition EMPTY_PREVIEW : pystr := U "(empty)".

(** The body of the innermost loop. *)
Definition list_session (current_session_id : pystr) (session : Session)
    : session_entry :=
  match get_screen_text session with
  | Some screen_text =>
    let clean_text := strip_ansi screen_text in
    let lines := stripped_lines (split LF clean_text) in
    let preview :=
      match last lines with
      | Some l => take 80 l
      | None => EMPTY_PREVIEW
      end in
    let question' := parse_multiple_choice clean_text in
    entry (session_id session)
      (bool_decide (session_id session = current_session_id))
      (Re.matched question')
      (match question' with Some q => Some (question q) | None => None end)
      preview
  | None => entry_error (session_id session)
  end.

Definition list_sessions (env : pystr) (app : App) : list session_entry :=
  let current_session_id := own_session_id env in
  flat_map (fun window =>
    flat_map (fun tab => map (list_session current_session_id) (sessions tab))
      (tabs window))
    (terminal_windows app).

Definition entry_id (e : session_entry) : pystr :=
  match e with
  | entry id _ _ _ _ => id
  | entry_error id => id
  end.

(** ** Further definitions used to state properties *)

(** Whether [send_answer] reports a success. *)
Definition is_success (a : option answer) : bool :=
  match a with
  | Some (typed_text _) | Some (selected_option _ _) => true
  | _ => false
  end.

(** The time slept along a trace, in milliseconds. *)
Fixpoint total_sleep (trace : list io) : N :=
  match trace with
  | [] => 0
  | Sleep ms :: rest => ms + total_sleep rest
  | SendText _ :: rest => total_sleep rest
  end.

(** The move of a plan from one position to another: none when they are
    the same. *)
Definition plan_move (selectedIndex targetIndex : Z) : list NavigationAction :=
  let delta := (targetIndex - selectedIndex)%Z in
  if (delta >? 0)%Z then [MoveSelection down (Z.to_nat delta)]
  else if (delta <? 0)%Z then [MoveSelection up (Z.to_nat (- delta))]
  else [].

(** The key under which the watch loop remembers a printed event. *)
Definition event_key (ev : event) : pystr :=
  ev_session_id ev ++ U ":" ++ question (ev_question ev).

(** Whether the search for a session accepts this one. *)
Definition shows_prompt (own : pystr) (s : Session) : Prop :=
  session_id s <> own /\
  exists screen_text,
    get_screen_text s = Some screen_text /\
    has SELECTOR screen_text || has CHECKBOX screen_text = true.

(** A text with no white space at either end. *)
Definition trimmed (s : pystr) : Prop :=
  (forall c, head s = Some c -> isspace c = false) /\
  (forall c, last s = Some c -> isspace c = false).

(** The marks of the options read so far agree with the selected index:
    no marked option stands after it, and the option at it is marked unless
    none is. *)
Definition marks_agree (marks : list bool) (sel : Z) : Prop :=
  (forall j, marks !! j = Some true -> (Z.of_nat j <= sel)%Z) /\
  ((0 <= sel)%Z /\ marks !! Z.to_nat sel = Some true \/
   sel = 0%Z /\ Forall (fun m => m = false) marks).

(** The texts of an option have no white space around them and its number
    is not negative. *)
Definition tidy_option (o : QuestionOption) : Prop :=
  trimmed (label o) /\ trimmed (description o) /\ (0 <= number o)%Z.

(** An index moved down by [k] lines. *)
Definition shift_index (k : nat) (r : option (nat * pystr)) : option (nat * pystr) :=
  match r with
  | Some (i, s) => Some ((i + k)%nat, s)
  | None => None
  end.

(** The parser, from the lines on. *)
Definition parse_lines (lines : list pystr) : option DetectedQuestion :=
  match find_header 0 lines with
  | None => None
  | Some (header_idx, header) =>
    match find_question lines
            (range (header_idx + 1) (Nat.min (header_idx + 10) (List.length lines))) with
    | None => None
    | Some (question_idx, question) =>
      let st := scan_options lines (range (question_idx + 1) (List.length lines))
                  {| st_options := []; st_selected_index := 0;
                     st_current_option := None |} in
      match flush st with
      | [] => None
      | _ :: _ =>
        Some {| header := header; question := question; options := flush st;
                selected_index := st_selected_index st;
                has_text_option := existsb is_text_input (flush st) |}
      end
    end
  end.

(** The second loop, run down a list of lines: the place of the question
    line in the list, and its text. *)
Fixpoint question_in (ls : list pystr) : option (nat * pystr) :=
  match ls with
  | [] => None
  | l :: rest =>
    let line := strip l in
    if negb (truthy line) then shift_index 1 (question_in rest)
    else if Re.matched (Re.match_ option_start_re line) then None
    else if truthy line && negb (startswith ENTER_TO_SELECT line) then Some (0%nat, line)
    else shift_index 1 (question_in rest)
  end.

(** The third loop, run down a list of lines. *)
Fixpoint scan_list (ls : list pystr) (st : scan_state) : scan_state :=
  match ls with
  | [] => st
  | line :: rest =>
    if contains ENTER_TO_SELECT line || contains TAB_ARROW line then st
    else scan_list rest (scan_line line st)
  end.

(** A line the second loop passes over: blank, or beginning with the
    footer's first words. *)
Definition passed_over (l : pystr) : Prop :=
  truthy (strip l) = false \/ startswith ENTER_TO_SELECT (strip l) = true.

(** ** A screen laid out as the docstring of [parse_multiple_choice] shows *)

(** What is written for one option: its number in digits, its label, its
    description (empty for none), and whether it has the selector. *)
Record option_text := {
  o_digits : pystr;
  o_label : pystr;
  o_description : pystr;
  o_marked : bool }.

Definition FOOTER : pystr :=
  U "Enter to select · Tab/Arrow keys to navigate · Esc to cancel".

Definition option_line (o : option_text) : pystr :=
  (if o_marked o then U "❯ " else U "  ") ++ o_digits o ++ U ". " ++ o_label o.

Definition description_line (o : option_text) : pystr :=
  U "     " ++ o_description o.

Definition option_rows (o : option_text) : list pystr :=
  option_line o ::
  (if truthy (o_description o) then [description_line o] else []).

Definition screen_rows (header question : pystr) (opts : list option_text)
    : list pystr :=
  [U "☐ " ++ header; []; question; []] ++ flat_map option_rows opts ++ [[]; FOOTER].

(** The option to be read back from what is written for it. *)
Definition parsed_option (o : option_text) : QuestionOption :=
  {| number := int (o_digits o);
     label := o_label o;
     description := o_description o;
     is_selected := o_marked o;
     is_text_input := contains TYPE_SOMETHING (lower (o_label o)) |}.

(** The position of the last marked option, counting from [n]; [sel] when
    none is marked. *)
Fixpoint last_marked (opts : list option_text) (n : nat) (sel : Z) : Z :=
  match opts with
  | [] => sel
  | o :: rest => last_marked rest (S n) (if o_marked o then Z.of_nat n else sel)
  end.

(** A text that fits on a line as it is: not empty, no white space around
    it, no line feed in it. *)
Definition plain (s : pystr) : Prop :=
  truthy s = true /\ trimmed s /\ has LF s = false.

Definition no_footer (line : pystr) : Prop :=
  contains ENTER_TO_SELECT line || contains TAB_ARROW line = false.

(** The most digits that the interpreter's [int] converts by default; it
    raises [ValueError] on a longer numeral. *)
Definition MAX_STR_DIGITS : Z := 4300.

(** What is written for an option can be read back: the number is made of
    decimal digits, no more of them than [int] converts, the label is
    plain, the line has no footer words; a description is plain, and its
    line has no footer words and is not itself an option line. *)
Definition readable_option (o : option_text) : Prop :=
  truthy (o_digits o) = true /\
  forallb isdecimal (o_digits o) = true /\
  (len (o_digits o) <= MAX_STR_DIGITS)%Z /\
  plain (o_label o) /\
  no_footer (option_line o) /\
  (truthy (o_description o) = true ->
   plain (o_description o) /\
   no_footer (description_line o) /\
   Re.match_ option_re (description_line o) = None).

(** The state of the third loop after the lines of an option. *)
Definition after_option (o : option_text) (st : scan_state) : scan_state :=
  {| st_options := flush st;
     st_selected_index := if o_marked o then len (flush st) else st_selected_index st;
     st_current_option := Some (parsed_option o) |}.

(** The part of the option pattern after the prefix:
    [( \d+ ) \. \s* ( .+ ) $] *)
Definition option_tail_re : Re.re :=
  Re.Seq (Re.Group 2 (Re.Plus isdecimal))
    (Re.Seq (Re.Chr 46)
       (Re.Seq (Re.Star isspace)
          (Re.Seq (Re.Group 3 (Re.Plus any_char)) Re.Eol))).

(** What is written for the options of the example screen. *)
Definition example_options : list option_text :=
  [ {| o_digits := U "1"; o_label := U "Fix the bug";
       o_description := U "Investigate the crash"; o_marked := true |};
    {| o_digits := U "2"; o_label := U "Write tests";
       o_description := []; o_marked := false |};
    {| o_digits := U "3"; o_label := U "Type something.";
       o_description := []; o_marked := false |} ].

(** Whether the pattern of [strip_ansi] matches at the head of [s]. *)
Definition begins_sequence (s : pystr) : bool :=
  Re.matched (Re.match_ ansi_escape s).

(** Whether the pattern matches nowhere in [s]. *)
Fixpoint sequence_free (s : pystr) : bool :=
  match s with
  | [] => true
  | _ :: s' => negb (begins_sequence s) && sequence_free s'
  end.

(** * Properties *)

(** ** The example screen *)

(** C1: the documented example screen parses to the header "Next task", the
    body "What should I work on?", three options in display order, selected
    index 0, the description "Investigate the crash" on option 0, option 2
    flagged as the free-text placeholder, and a true free-text flag. *)
Theorem example_screen_parses :
  parse_multiple_choice example_screen = Some example_question /\
  parse_multiple_choice (strip_ansi example_screen) = Some example_question /\
  header example_question = U "Next task" /\
  question example_question = U "What should I work on?" /\
  map label (options example_question)
    = [U "Fix the bug"; U "Write tests"; U "Type something."] /\
  selected_index example_question = 0%Z /\
  (description <$> options example_question !! 0%nat) = Some (U "Investigate the crash") /\
  (is_text_input <$> options example_question !! 2%nat) = Some true /\
  has_text_option example_question = true.
Proof. repeat split; vm_compute; reflexivity. Qed.

(** ** Answering *)

Lemma sent_app (t1 t2 : list io) : sent (t1 ++ t2) = sent t1 ++ sent t2.
Proof.
  induction t1 as [|[text|ms] t1 IH]; simpl; [reflexivity | | assumption].
  now rewrite IH.
Qed.

Lemma sent_press (key : pystr) (n : nat) : sent (press key n) = repeat key n.
Proof. induction n as [|n IH]; simpl; [reflexivity | now rewrite IH]. Qed.

Lemma presses_app (key : pystr) (k1 k2 : list pystr) :
  presses key (k1 ++ k2) = (presses key k1 + presses key k2)%Z.
Proof. unfold presses, len. rewrite filter_app, length_app. lia. Qed.

Lemma presses_repeat_same (key : pystr) (n : nat) :
  presses key (repeat key n) = Z.of_nat n.
Proof.
  unfold presses, len. induction n as [|n IH]; simpl; [reflexivity|].
  rewrite filter_cons_True by reflexivity. simpl. lia.
Qed.

Lemma presses_repeat_other (key other : pystr) (n : nat) :
  other <> key -> presses key (repeat other n) = 0%Z.
Proof.
  intros Hne. unfold presses, len. induction n as [|n IH]; simpl; [reflexivity|].
  rewrite filter_cons_False by exact Hne. exact IH.
Qed.

(** The keys sent by the navigation block are those of the plan's move. *)
Lemma sent_navigate (selected target : Z) :
  sent (navigate (target - selected) ++ [Sleep 100; SendText ENTER])
    = keys_of_plan (plan_option selected target).
Proof.
  unfold navigate, plan_option, keys_of_plan. rewrite sent_app.
  destruct (target - selected >? 0)%Z eqn:Hpos; simpl.
  - now rewrite sent_press.
  - destruct (target - selected <? 0)%Z eqn:Hneg; simpl.
    + rewrite sent_press.
      replace (Z.abs (target - selected)) with (- (target - selected))%Z by lia.
      reflexivity.
    + reflexivity.
Qed.

Lemma net_navigate (moves : Z) :
  (presses DOWN (sent (navigate moves)) - presses UP (sent (navigate moves)))%Z = moves
  /\ presses ENTER (sent (navigate moves)) = 0%Z.
Proof.
  unfold navigate.
  destruct (moves >? 0)%Z eqn:Hpos; [|destruct (moves <? 0)%Z eqn:Hneg];
    simpl; rewrite ?sent_press.
  - rewrite presses_repeat_same, !presses_repeat_other by discriminate.
    apply Z.gtb_lt in Hpos. split; lia.
  - rewrite presses_repeat_same, !presses_repeat_other by discriminate.
    apply Z.ltb_lt in Hneg. split; lia.
  - rewrite Z.gtb_ltb in Hpos. apply Z.ltb_ge in Hpos. apply Z.ltb_ge in Hneg.
    unfold presses, len; simpl.
    split; lia.
Qed.

(** With no text to type, the function takes the [choice] branch. *)
Lemma answer_question_choice (q : DetectedQuestion) (choice : Z) (text : option pystr) :
  truthy_opt text = false ->
  answer_question q (Some choice) text =
    if ((choice - 1 <? 0) || (choice - 1 >=? len (options q)))%Z
    then (Some (invalid_choice choice (len (options q))), [])
    else
      let trace := navigate (choice - 1 - selected_index q) ++ [Sleep 100; SendText ENTER] in
      match options q !! Z.to_nat (choice - 1) with
      | Some selected => (Some (selected_option choice (label selected)), trace)
      | None => (None, trace)
      end.
Proof.
  intros Htext. unfold answer_question.
  destruct text as [[|c t]|]; simpl in *; [reflexivity | discriminate | reflexivity].
Qed.

Lemma in_range_lookup (q : DetectedQuestion) (i : Z) :
  (0 <= i < len (options q))%Z -> exists o, options q !! Z.to_nat i = Some o.
Proof.
  intros Hi. unfold len in Hi.
  destruct (options q !! Z.to_nat i) as [o|] eqn:Hl; [now exists o|].
  apply lookup_ge_None in Hl. lia.
Qed.

(** C2: for an option target inside the list, the keys sent are those of at
    most one move (down by the distance when the target is below the
    selection, up by it when above, none when equal) followed by exactly one
    confirmation; the downs minus the ups equal the distance, and Enter is
    sent once, last. *)
Theorem option_target_plan (q : DetectedQuestion) (choice : Z) (text : option pystr) :
  truthy_opt text = false ->
  (0 <= choice - 1 < len (options q))%Z ->
  let trace := snd (answer_question q (Some choice) text) in
  let delta := (choice - 1 - selected_index q)%Z in
  sent trace = keys_of_plan (plan_option (selected_index q) (choice - 1)) /\
  sent trace =
    keys_of_plan
      ((if (delta >? 0)%Z then [MoveSelection down (Z.to_nat delta)]
        else if (delta <? 0)%Z then [MoveSelection up (Z.to_nat (- delta))]
        else []) ++ [Confirm]) /\
  (presses DOWN (sent trace) - presses UP (sent trace))%Z = delta /\
  presses ENTER (sent trace) = 1%Z /\
  last (sent trace) = Some ENTER.
Proof.
  intros Htext Hrange trace delta. subst trace.
  rewrite (answer_question_choice q choice text Htext).
  destruct ((choice - 1 <? 0) || (choice - 1 >=? len (options q)))%Z eqn:Hout; [lia|].
  destruct (in_range_lookup q (choice - 1) Hrange) as [o Ho].
  cbv zeta. rewrite Ho. cbn [snd]. fold delta.
  split; [apply sent_navigate|]. split; [apply sent_navigate|].
  rewrite sent_app. cbn [sent]. rewrite !presses_app.
  destruct (net_navigate delta) as [Hnet Henter].
  split; [|split].
  - unfold presses at 2 4. simpl. rewrite !filter_cons_False by discriminate.
    unfold len; simpl. lia.
  - rewrite Henter. reflexivity.
  - apply last_snoc.
Qed.

Lemma option_target_plan_witness :
  truthy_opt None = false /\
  (0 <= 2 - 1 < len (options example_question))%Z /\
  sent (snd (answer_question example_question (Some 2%Z) None))
    = keys_of_plan [MoveSelection down 1; Confirm].
Proof.
  split; [reflexivity|]. split; [vm_compute; split; [discriminate | reflexivity]|].
  apply (option_target_plan example_question 2 None); [reflexivity|].
  vm_compute; split; [discriminate | reflexivity].
Defined.

(** C3, as amended: on the example question, typing "build a CLI" sends two
    downs, one Enter that selects the free-text option, the text, and one
    Enter that submits it; there is no second Enter before the text. *)
Theorem free_text_plan_example :
  parse_multiple_choice example_screen = Some example_question /\
  answer_question example_question None (Some (U "build a CLI")) =
    (Some (typed_text (U "build a CLI")),
     [SendText DOWN; Sleep 50; SendText DOWN; Sleep 50; Sleep 100;
      SendText ENTER; Sleep 200; SendText (U "build a CLI"); Sleep 100;
      SendText ENTER]) /\
  sent (snd (answer_question example_question None (Some (U "build a CLI")))) =
    keys_of_plan
      [MoveSelection down 2; Confirm; EmitText (U "build a CLI"); Confirm].
Proof. repeat split; vm_compute; reflexivity. Qed.

(** C3, as stated, fails: the keys sent are not those of a plan with two
    confirmations between the move and the text. *)
Lemma free_text_plan_two_confirms_fails :
  sent (snd (answer_question example_question None (Some (U "build a CLI")))) <>
    keys_of_plan
      [MoveSelection down 2; Confirm; Confirm; EmitText (U "build a CLI"); Confirm].
Proof. vm_compute. discriminate. Qed.

(** C4: with no text to type, a choice whose index lies outside the options
    is answered by the [invalid_choice] error and no action, and a choice
    whose index lies inside is answered by the selection of that option. *)
Theorem choice_range_checked (q : DetectedQuestion) (choice : Z) (text : option pystr) :
  truthy_opt text = false ->
  ((choice - 1 < 0 \/ len (options q) <= choice - 1)%Z ->
     answer_question q (Some choice) text
       = (Some (invalid_choice choice (len (options q))), [])) /\
  ((0 <= choice - 1 < len (options q))%Z ->
     exists selected,
       options q !! Z.to_nat (choice - 1) = Some selected /\
       answer_question q (Some choice) text
         = (Some (selected_option choice (label selected)),
            navigate (choice - 1 - selected_index q) ++ [Sleep 100; SendText ENTER])).
Proof.
  intros Htext. rewrite (answer_question_choice q choice text Htext).
  split; intros Hrange.
  - destruct ((choice - 1 <? 0) || (choice - 1 >=? len (options q)))%Z eqn:Hout;
      [reflexivity | lia].
  - destruct ((choice - 1 <? 0) || (choice - 1 >=? len (options q)))%Z eqn:Hout; [lia|].
    destruct (in_range_lookup q (choice - 1) Hrange) as [o Ho].
    exists o. split; [exact Ho|]. cbv zeta. rewrite Ho. reflexivity.
Qed.

Lemma choice_range_checked_witness :
  truthy_opt (Some []) = false /\
  answer_question example_question (Some 4%Z) (Some [])
    = (Some (invalid_choice 4 3), []) /\
  answer_question example_question (Some 0%Z) (Some [])
    = (Some (invalid_choice 0 3), []) /\
  exists selected,
    options example_question !! 2%nat = Some selected /\
    answer_question example_question (Some 3%Z) (Some [])
      = (Some (selected_option 3 (label selected)),
         navigate 2 ++ [Sleep 100; SendText ENTER]).
Proof.
  destruct (choice_range_checked example_question 4 (Some []) eq_refl) as [H4 _].
  destruct (choice_range_checked example_question 0 (Some []) eq_refl) as [H0 _].
  destruct (choice_range_checked example_question 3 (Some []) eq_refl) as [_ H3].
  split; [reflexivity|]. split; [apply H4; right; vm_compute; discriminate|].
  split; [apply H0; left; reflexivity|].
  apply H3. vm_compute. split; [discriminate | reflexivity].
Defined.

(** C10: when the session shows a question and the choice lies outside
    1..N (and there is no text to type), the function returns the
    [invalid_choice] error and has sent nothing to the session; and whenever
    it returns that error, nothing has been sent. *)
Theorem invalid_choice_sends_nothing (env : pystr) (app : App) (choice : Z)
    (text target : option pystr) (session : Session) (screen_text : pystr)
    (q : DetectedQuestion) :
  truthy_opt text = false ->
  target_session env app target = Some session ->
  get_screen_text session = Some screen_text ->
  parse_multiple_choice (strip_ansi screen_text) = Some q ->
  (choice < 1 \/ len (options q) < choice)%Z ->
  send_answer env app (Some choice) text target
    = (Some (invalid_choice choice (len (options q))), []) /\
  sent (snd (send_answer env app (Some choice) text target)) = [] /\
  forall choice' text' c n trace,
    send_answer env app choice' text' target = (Some (invalid_choice c n), trace) ->
    trace = [].
Proof.
  intros Htext Hsession Hscreen Hparse Hout.
  assert (Hrun : send_answer env app (Some choice) text target
                 = (Some (invalid_choice choice (len (options q))), [])).
  { unfold send_answer. rewrite Hsession, Hscreen, Hparse.
    rewrite (answer_question_choice q choice text Htext).
    destruct ((choice - 1 <? 0) || (choice - 1 >=? len (options q)))%Z eqn:Hin;
      [reflexivity | lia]. }
  split; [exact Hrun|]. split; [now rewrite Hrun|].
  intros choice' text' c n trace. unfold send_answer.
  rewrite Hsession, Hscreen, Hparse. unfold answer_question.
  assert (Hchoice :
    forall r : option answer * list io,
      r = match choice' with
          | Some ch =>
            if ((ch - 1 <? 0) || (ch - 1 >=? len (options q)))%Z
            then (Some (invalid_choice ch (len (options q))), [])
            else
              match options q !! Z.to_nat (ch - 1) with
              | Some selected =>
                (Some (selected_option ch (label selected)),
                 navigate (ch - 1 - selected_index q) ++ [Sleep 100; SendText ENTER])
              | None =>
                (None, navigate (ch - 1 - selected_index q) ++ [Sleep 100; SendText ENTER])
              end
          | None => (Some no_action, [])
          end ->
      r = (Some (invalid_choice c n), trace) -> trace = []).
  { intros r -> Hr. destruct choice' as [ch|]; [|discriminate].
    destruct ((ch - 1 <? 0) || (ch - 1 >=? len (options q)))%Z.
    - now inversion Hr.
    - destruct (options q !! Z.to_nat (ch - 1)); discriminate. }
  destruct text' as [[|c0 t0]|]; simpl.
  - apply Hchoice. reflexivity.
  - discriminate.
  - apply Hchoice. reflexivity.
Qed.

Lemma invalid_choice_sends_nothing_witness :
  send_answer EXAMPLE_ENV (one_tab [unreadable_session; example_session])
      (Some 4%Z) None None
    = (Some (invalid_choice 4 3), []).
Proof.
  apply (invalid_choice_sends_nothing EXAMPLE_ENV
           (one_tab [unreadable_session; example_session]) 4 None None
           example_session example_screen example_question);
    try (vm_compute; reflexivity).
  right. vm_compute. reflexivity.
Defined.

(** ** Parsing *)

Lemma has_true (c : N) (s : pystr) : has c s = true <-> In c s.
Proof.
  unfold has. rewrite existsb_exists. split.
  - intros (x & Hin & Heq). apply N.eqb_eq in Heq. now subst.
  - intros Hin. exists c. split; [exact Hin | apply N.eqb_refl].
Qed.

(** Every character of a line of [split] is a character of the text. *)
Lemma split_chars (sep : N) (s line : pystr) (c : N) :
  In line (split sep s) -> In c line -> In c s.
Proof.
  revert line. induction s as [|x s IH]; intros line Hline Hc; simpl in Hline.
  - destruct Hline as [<-|[]]. exact Hc.
  - destruct (x =? sep).
    + destruct Hline as [<-|Hline]; [destruct Hc|]. right. now apply (IH line).
    + destruct (split sep s) as [|l ls] eqn:Hs.
      * destruct Hline as [<-|[]]. destruct Hc as [->|[]]. now left.
      * destruct Hline as [<-|Hline].
        -- destruct Hc as [->|Hc]; [now left|]. right. apply (IH l); [now left | exact Hc].
        -- right. apply (IH line); [now right | exact Hc].
Qed.

Lemma find_header_no_checkbox (lines : list pystr) (i : nat) :
  (forall line, In line lines -> has CHECKBOX line = false /\ has CHECKED line = false) ->
  find_header i lines = None.
Proof.
  revert i. induction lines as [|line rest IH]; intros i Hall; simpl; [reflexivity|].
  destruct (Hall line (or_introl eq_refl)) as [-> ->]. simpl.
  apply IH. intros l Hl. apply Hall. now right.
Qed.

(** C7: a text that has neither checkbox character is not a question. *)
Theorem no_checkbox_not_found (text : pystr) :
  has CHECKBOX text = false ->
  has CHECKED text = false ->
  parse_multiple_choice text = None.
Proof.
  intros Hbox Hchecked. unfold parse_multiple_choice. cbv zeta.
  rewrite find_header_no_checkbox; [reflexivity|].
  intros line Hline. split.
  - destruct (has CHECKBOX line) eqn:H; [|reflexivity].
    apply has_true in H. apply (split_chars LF text line CHECKBOX Hline) in H.
    apply has_true in H. congruence.
  - destruct (has CHECKED line) eqn:H; [|reflexivity].
    apply has_true in H. apply (split_chars LF text line CHECKED Hline) in H.
    apply has_true in H. congruence.
Qed.

Lemma no_checkbox_not_found_witness :
  has CHECKBOX (U "❯ 1. Fix the bug") = false /\
  has CHECKED (U "❯ 1. Fix the bug") = false /\
  parse_multiple_choice (U "❯ 1. Fix the bug") = None.
Proof.
  split; [reflexivity|]. split; [reflexivity|].
  apply (no_checkbox_not_found (U "❯ 1. Fix the bug")); reflexivity.
Defined.

Lemma len_snoc {A : Type} (l : list A) (x : A) : len (l ++ [x]) = (len l + 1)%Z.
Proof. unfold len. rewrite length_app. simpl. lia. Qed.

Lemma scan_line_inv (line : pystr) (st : scan_state) :
  scan_inv st -> scan_inv (scan_line line st).
Proof.
  intros (Hnn & Hlt & Hzero). unfold scan_line.
  destruct (Re.match_ option_re line) as [m|].
  - unfold scan_inv, flush at 1 3 5 7. cbn [st_options st_selected_index st_current_option].
    destruct (has SELECTOR (Re.group 1 m) || has GT (Re.group 1 m)) eqn:Hsel.
    + split; [unfold len; lia|]. split.
      * right. rewrite len_snoc. lia.
      * intros Hall. apply Forall_app in Hall as [_ Hlast].
        apply Forall_cons in Hlast as [Hlast _]. simpl in Hlast. discriminate.
    + split; [exact Hnn|]. split.
      * rewrite len_snoc. destruct Hlt as [->|Hlt]; [left; reflexivity | right; lia].
      * intros Hall. apply Forall_app in Hall as [Hall _]. now apply Hzero.
  - destruct (st_current_option st) as [cur|] eqn:Hcur; [|now repeat split].
    destruct (truthy (strip line)); [|now repeat split].
    unfold scan_inv, flush in *. rewrite Hcur in *.
    cbn [st_options st_selected_index st_current_option].
    split; [exact Hnn|]. split.
    + rewrite len_snoc in *. exact Hlt.
    + intros Hall. apply Hzero. apply Forall_app in Hall as [Hall Hlast].
      apply Forall_app. split; [exact Hall|].
      apply Forall_cons in Hlast as [Hlast _]. apply Forall_cons. split; [exact Hlast|].
      apply Forall_nil. exact I.
Qed.

Lemma scan_options_inv (lines : list pystr) (idxs : list nat) (st : scan_state) :
  scan_inv st -> scan_inv (scan_options lines idxs st).
Proof.
  revert st. induction idxs as [|i rest IH]; intros st Hinv; simpl; [exact Hinv|].
  destruct (contains ENTER_TO_SELECT (nth i lines []) || contains TAB_ARROW (nth i lines []));
    [exact Hinv|].
  apply IH. now apply scan_line_inv.
Qed.

(** C5: a question returned by the parser has at least one option and a
    selected index that is a position in its options; the index is 0 when no
    option carries the selection marker. *)
Theorem parsed_question_invariant (text : pystr) (q : DetectedQuestion) :
  parse_multiple_choice text = Some q ->
  options q <> [] /\
  (0 <= selected_index q < len (options q))%Z /\
  (Forall (fun o => is_selected o = false) (options q) -> selected_index q = 0%Z).
Proof.
  unfold parse_multiple_choice. cbv zeta.
  destruct (find_header 0 (split LF text)) as [[header_idx header']|]; [|discriminate].
  destruct (find_question _ _) as [[question_idx question']|]; [|discriminate].
  match goal with |- context [scan_options ?l ?r ?s] =>
    pose proof (scan_options_inv l r s) as Hinv; set (st := scan_options l r s) in *
  end.
  destruct Hinv as (Hnn & Hlt & Hzero).
  { repeat split; [reflexivity | now left]. }
  destruct (flush st) as [|o os] eqn:Hflush; [discriminate|].
  intros [= <-]. cbn [options selected_index].
  split; [discriminate|]. split; [|exact Hzero].
  split; [exact Hnn|]. destruct Hlt as [->|Hlt]; [|exact Hlt].
  unfold len. simpl. lia.
Qed.

Lemma parsed_question_invariant_witness :
  parse_multiple_choice example_screen = Some example_question /\
  options example_question <> [] /\
  (0 <= selected_index example_question < len (options example_question))%Z.
Proof.
  split; [vm_compute; reflexivity|].
  destruct (parsed_question_invariant example_screen example_question) as (H1 & H2 & _).
  - vm_compute. reflexivity.
  - split; [exact H1 | exact H2].
Defined.

(** ** Scanning the sessions *)

Lemma first_of_app {A B : Type} (body : A -> option B) (l1 l2 : list A) :
  first_of body (l1 ++ l2) =
    match first_of body l1 with
    | Some y => Some y
    | None => first_of body l2
    end.
Proof.
  induction l1 as [|x l1 IH]; simpl; [reflexivity|].
  destruct (body x); [reflexivity | exact IH].
Qed.

Lemma first_of_flat_map {A B C : Type} (body : B -> option C) (g : A -> list B)
    (l : list A) :
  first_of body (flat_map g l) = first_of (fun x => first_of body (g x)) l.
Proof.
  induction l as [|x l IH]; simpl; [reflexivity|].
  rewrite first_of_app, IH. reflexivity.
Qed.

Lemma first_of_none {A B : Type} (body : A -> option B) (l : list A) :
  (forall x, In x l -> body x = None) -> first_of body l = None.
Proof.
  induction l as [|x l IH]; intros Hall; simpl; [reflexivity|].
  rewrite (Hall x (or_introl eq_refl)). apply IH. intros y Hy. apply Hall. now right.
Qed.

Lemma first_of_some {A B : Type} (body : A -> option B) (l : list A) (x : A) (y : B) :
  In x l -> body x = Some y -> first_of body l <> None.
Proof.
  induction l as [|x' l IH]; intros Hin Hx; simpl; [destruct Hin|].
  destruct (body x') eqn:Hx'; [discriminate|].
  destruct Hin as [->|Hin]; [congruence | now apply IH].
Qed.

Lemma for_each_app {A S : Type} (body : A -> S -> S * bool) (l1 l2 : list A) (st : S) :
  for_each body (l1 ++ l2) st =
    let '(st', returned) := for_each body l1 st in
    if returned then (st', true) else for_each body l2 st'.
Proof.
  revert st. induction l1 as [|x l1 IH]; intros st; simpl; [reflexivity|].
  destruct (body x st) as [st' [|]]; [reflexivity | apply IH].
Qed.

Lemma for_each_flat_map {A B S : Type} (body : B -> S -> S * bool) (g : A -> list B)
    (l : list A) (st : S) :
  for_each body (flat_map g l) st = for_each (fun x => for_each body (g x)) l st.
Proof.
  revert st. induction l as [|x l IH]; intros st; simpl; [reflexivity|].
  rewrite for_each_app. destruct (for_each body (g x) st) as [st' [|]];
    [reflexivity | apply IH].
Qed.

(** The nested loops visit the sessions in enumeration order. *)
Lemma find_claude_session_flat (env : pystr) (app : App) :
  find_claude_session env app
    = first_of (check_session (own_session_id env)) (all_sessions app).
Proof.
  unfold find_claude_session, all_sessions. cbv zeta.
  rewrite first_of_flat_map. induction (terminal_windows app) as [|w ws IH];
    simpl; [reflexivity|].
  rewrite first_of_flat_map, IH. reflexivity.
Qed.

Lemma watch_tick_flat (once : bool) (cur : pystr) (app : App) (st : watch_state) :
  watch_tick once cur app st = for_each (watch_session once cur) (all_sessions app) st.
Proof.
  unfold watch_tick, all_sessions. rewrite for_each_flat_map.
  revert st. induction (terminal_windows app) as [|w ws IH]; intros st;
    simpl; [reflexivity|].
  rewrite for_each_flat_map.
  destruct (for_each _ (tabs w) st) as [st' [|]]; [reflexivity | apply IH].
Qed.

Lemma check_session_unreadable (cur : pystr) (s : Session) :
  screen s = None -> check_session cur s = None.
Proof.
  intros Hs. unfold check_session, get_screen_text. rewrite Hs.
  now destruct (bool_decide _).
Qed.

Lemma watch_session_unreadable (once : bool) (cur : pystr) (s : Session)
    (st : watch_state) :
  screen s = None -> watch_session once cur s st = (st, false).
Proof.
  intros Hs. unfold watch_session, get_screen_text. rewrite Hs.
  now destruct (bool_decide _).
Qed.

(** ** The watch loop *)

(** A session whose key has been seen, or that has none, changes nothing. *)
Lemma watch_session_quiet (once : bool) (cur : pystr) (s : Session) (st : watch_state) :
  (forall key, session_key cur s = Some key -> key ∈ seen_questions st) ->
  watch_session once cur s st = (st, false).
Proof.
  unfold session_key, watch_session. intros Hseen.
  destruct (bool_decide (session_id s = cur)); [reflexivity|].
  destruct (get_screen_text s) as [screen_text|]; [|reflexivity].
  destruct (parse_multiple_choice (strip_ansi screen_text)) as [q|]; [|reflexivity].
  cbv zeta. rewrite bool_decide_eq_true_2; [reflexivity|]. now apply Hseen.
Qed.

(** After its turn, a session's key has been seen, and nothing seen before
    is forgotten. *)
Lemma watch_session_seen (once : bool) (cur : pystr) (s : Session) (st : watch_state) :
  seen_questions st ⊆ seen_questions (fst (watch_session once cur s st)) /\
  forall key, session_key cur s = Some key ->
    key ∈ seen_questions (fst (watch_session once cur s st)).
Proof.
  unfold session_key, watch_session.
  destruct (bool_decide (session_id s = cur)); [split; [set_solver | discriminate]|].
  destruct (get_screen_text s) as [screen_text|]; [|split; [set_solver | discriminate]].
  destruct (parse_multiple_choice (strip_ansi screen_text)) as [q|];
    [|split; [set_solver | discriminate]].
  cbv zeta. case_bool_decide; simpl.
  - split; [set_solver|]. now intros key [= <-].
  - split; [set_solver|]. intros key [= <-]. set_solver.
Qed.

Lemma session_key_stable (once : bool) (cur : pystr) (l : list Session) (st : watch_state) :
  seen_questions st ⊆ seen_questions (fst (for_each (watch_session once cur) l st)).
Proof.
  revert st. induction l as [|s l IH]; intros st; simpl; [set_solver|].
  pose proof (watch_session_seen once cur s st) as [Hmono _].
  destruct (watch_session once cur s st) as [st' [|]]; simpl in *; [exact Hmono|].
  specialize (IH st'). set_solver.
Qed.

(** A pass that does not stop at the first question leaves every key seen. *)
Lemma watch_pass_seen (cur : pystr) (l : list Session) (st : watch_state) :
  snd (for_each (watch_session false cur) l st) = false /\
  forall s key, In s l -> session_key cur s = Some key ->
    key ∈ seen_questions (fst (for_each (watch_session false cur) l st)).
Proof.
  revert st. induction l as [|s l IH]; intros st; simpl.
  - split; [reflexivity|]. intros s key [].
  - pose proof (watch_session_seen false cur s st) as [_ Hkey].
    destruct (watch_session false cur s st) as [st' r] eqn:Hstep.
    assert (r = false) as ->.
    { revert Hstep. unfold watch_session.
      repeat (match goal with |- context [match ?x with _ => _ end] => destruct x end;
              try (intros [= _ <-]; reflexivity)). }
    destruct (IH st') as [Hret Hrest]. split; [exact Hret|].
    intros s' key [<-|Hin] Hs'.
    + apply (session_key_stable false cur l st'). simpl in Hkey. now apply Hkey.
    + now apply Hrest with s'.
Qed.

Lemma watch_pass_quiet (once : bool) (cur : pystr) (l : list Session) (st : watch_state) :
  (forall s key, In s l -> session_key cur s = Some key -> key ∈ seen_questions st) ->
  for_each (watch_session once cur) l st = (st, false).
Proof.
  induction l as [|s l IH]; intros Hseen; simpl; [reflexivity|].
  rewrite watch_session_quiet.
  - apply IH. intros s' key Hin. apply Hseen. now right.
  - intros key. apply Hseen. now left.
Qed.

(** What a pass has printed stays printed. *)
Lemma watch_session_grows (once : bool) (cur : pystr) (s : Session) (st : watch_state) :
  printed st `prefix_of` printed (fst (watch_session once cur s st)).
Proof.
  unfold watch_session.
  destruct (bool_decide (session_id s = cur)); [reflexivity|].
  destruct (get_screen_text s) as [screen_text|]; [|reflexivity].
  destruct (parse_multiple_choice (strip_ansi screen_text)) as [q|]; [|reflexivity].
  cbv zeta. case_bool_decide; [reflexivity|]. simpl. now apply prefix_app_r.
Qed.

Lemma watch_pass_grows (once : bool) (cur : pystr) (l : list Session) (st : watch_state) :
  printed st `prefix_of` printed (fst (for_each (watch_session once cur) l st)).
Proof.
  revert st. induction l as [|s l IH]; intros st; simpl; [reflexivity|].
  pose proof (watch_session_grows once cur s st) as Hstep.
  destruct (watch_session once cur s st) as [st' [|]]; simpl in *; [exact Hstep|].
  etransitivity; [exact Hstep | apply IH].
Qed.

Lemma session_key_unreadable (cur : pystr) (s : Session) :
  screen s = None -> session_key cur s = None.
Proof.
  intros Hs. unfold session_key, get_screen_text. rewrite Hs.
  now destruct (bool_decide _).
Qed.

(** C8: a session whose screen cannot be read is skipped, by the search for
    a session and by a pass of the watch loop alike: both give what they
    give when that session is not there, and both go on to the sessions
    after it. The search still returns a session when a later session, not
    the caller's own, shows a selector or a checkbox, and it returns that
    one when no session before it does. A pass of the watch loop still
    reads the screen of a later session that is not the caller's own: when
    that screen shows a question, a pass that does not stop at the first
    question leaves its key seen, and when the key is new and the sessions
    before have nothing new to report, the pass prints that question's
    event next, and stops there with [once] or goes on to the rest without. *)
Theorem unreadable_session_skipped (env : pystr) (once : bool) (st : watch_state)
    (app app' : App) (before after : list Session) (bad : Session) :
  screen bad = None ->
  all_sessions app = before ++ bad :: after ->
  all_sessions app' = before ++ after ->
  find_claude_session env app = find_claude_session env app' /\
  watch_tick once (own_session_id env) app st
    = watch_tick once (own_session_id env) app' st /\
  (forall (mid rest : list Session) (good : Session) (screen_text : pystr),
    after = mid ++ good :: rest ->
    session_id good <> own_session_id env ->
    get_screen_text good = Some screen_text ->
    has SELECTOR screen_text || has CHECKBOX screen_text = true ->
    find_claude_session env app <> None /\
    ((forall s, In s (before ++ mid) -> check_session (own_session_id env) s = None) ->
     find_claude_session env app = Some good)) /\
  (forall (mid rest : list Session) (good : Session) (screen_text : pystr)
          (q : DetectedQuestion),
    after = mid ++ good :: rest ->
    session_id good <> own_session_id env ->
    get_screen_text good = Some screen_text ->
    parse_multiple_choice (strip_ansi screen_text) = Some q ->
    let key := session_id good ++ U ":" ++ question q in
    let ev := {| ev_session_id := session_id good; ev_question := q |} in
    let st1 := {| seen_questions := {[key]} ∪ seen_questions st;
                  printed := printed st ++ [ev] |} in
    key ∈ seen_questions (fst (watch_tick false (own_session_id env) app st)) /\
    ((key ∉ seen_questions st) ->
     (forall s key', In s (before ++ mid) ->
        session_key (own_session_id env) s = Some key' -> key' ∈ seen_questions st) ->
     watch_tick once (own_session_id env) app st
       = (if once then (st1, true)
          else for_each (watch_session false (own_session_id env)) rest st1) /\
     (printed st ++ [ev])
       `prefix_of` printed (fst (watch_tick once (own_session_id env) app st)))).
Proof.
  intros Hbad Happ Happ'. split; [|split; [|split]].
  - rewrite !find_claude_session_flat, Happ, Happ', !first_of_app. simpl.
    now rewrite (check_session_unreadable _ bad Hbad).
  - rewrite !watch_tick_flat, Happ, Happ', !for_each_app. simpl.
    destruct (for_each _ before st) as [st' [|]]; [reflexivity|].
    now rewrite (watch_session_unreadable _ _ bad _ Hbad).
  - intros mid rest good screen_text -> Hother Htext Hshows.
    assert (Hgood : check_session (own_session_id env) good = Some good).
    { unfold check_session. rewrite bool_decide_eq_false_2 by exact Hother.
      now rewrite Htext, Hshows. }
    rewrite find_claude_session_flat, Happ. split.
    + apply (first_of_some _ _ good good); [|exact Hgood].
      apply in_or_app. right. right. apply in_or_app. right. now left.
    + intros Hnone. rewrite first_of_app, first_of_none.
      2:{ intros s Hs. apply Hnone. apply in_or_app. now left. }
      simpl. rewrite (check_session_unreadable _ bad Hbad).
      rewrite first_of_app, first_of_none.
      2:{ intros s Hs. apply Hnone. apply in_or_app. now right. }
      simpl. now rewrite Hgood.
  - intros mid rest good screen_text q -> Hother Htext Hparse key ev st1.
    assert (Hkey : session_key (own_session_id env) good = Some key).
    { unfold session_key. rewrite bool_decide_eq_false_2 by exact Hother.
      now rewrite Htext, Hparse. }
    split.
    + rewrite watch_tick_flat, Happ.
      apply (proj2 (watch_pass_seen (own_session_id env) _ st) good key); [|exact Hkey].
      apply in_or_app. right. right. apply in_or_app. right. now left.
    + intros Hnew Hquiet.
      assert (Htick : watch_tick once (own_session_id env) app st
                = (if once then (st1, true)
                   else for_each (watch_session false (own_session_id env)) rest st1)).
      { rewrite watch_tick_flat, Happ.
        change (before ++ bad :: mid ++ good :: rest)
          with (before ++ [bad] ++ mid ++ good :: rest).
        rewrite !app_assoc, for_each_app, watch_pass_quiet.
        2:{ intros s key' Hin Hs. rewrite <- app_assoc in Hin.
            apply in_app_or in Hin as [Hin|Hin];
              [apply (Hquiet s key'); [apply in_or_app; now left | exact Hs]|].
            apply in_app_or in Hin as [[<-|[]]|Hin];
              [now rewrite (session_key_unreadable _ _ Hbad) in Hs|].
            apply (Hquiet s key'); [apply in_or_app; now right | exact Hs]. }
        cbn [for_each]. unfold watch_session at 1.
        rewrite bool_decide_eq_false_2 by exact Hother. rewrite Htext, Hparse.
        cbv zeta. fold key. rewrite (bool_decide_eq_false_2 _ Hnew). fold ev. fold st1.
        now destruct once. }
      split; [exact Htick|]. rewrite Htick. destruct once; [reflexivity|].
      apply (watch_pass_grows false (own_session_id env) rest st1).
Qed.

Lemma unreadable_session_skipped_witness :
  screen unreadable_session = None /\
  find_claude_session EXAMPLE_ENV (one_tab [unreadable_session; example_session])
    = find_claude_session EXAMPLE_ENV (one_tab [example_session]) /\
  find_claude_session EXAMPLE_ENV (one_tab [unreadable_session; example_session])
    = Some example_session /\
  printed (fst (watch_tick true (own_session_id EXAMPLE_ENV)
                  (one_tab [unreadable_session; example_session])
                  {| seen_questions := ∅; printed := [] |}))
    = [{| ev_session_id := session_id example_session;
          ev_question := example_question |}].
Proof.
  destruct (unreadable_session_skipped EXAMPLE_ENV true
              {| seen_questions := ∅; printed := [] |}
              (one_tab [unreadable_session; example_session])
              (one_tab [example_session])
              [] [example_session] unreadable_session)
    as (Hfind & _ & Hlater & Hwatch); try reflexivity.
  split; [reflexivity|]. split; [exact Hfind|]. split.
  - apply (Hlater [] [] example_session example_screen); try reflexivity.
    + vm_compute. discriminate.
    + intros s [].
  - assert (Hother : session_id example_session <> own_session_id EXAMPLE_ENV)
      by (vm_compute; discriminate).
    pose proof (Hwatch [] [] example_session example_screen example_question
                  eq_refl Hother eq_refl eq_refl) as Hw.
    cbv zeta in Hw. destruct Hw as (_ & Hnew).
    destruct Hnew as (Htick & _).
    + apply not_elem_of_empty.
    + intros s key' [].
    + rewrite Htick. reflexivity.
Defined.

(** C9: the loop prints an event for a session's question only when its key,
    the session id and the question text, has not been seen, and the key is
    seen from then on; so a second pass over the same screens prints
    nothing, and two passes over one session showing one question print
    exactly one event. *)
Theorem watch_reports_once (env : pystr) (s : Session) (screen_text : pystr)
    (q : DetectedQuestion) :
  session_id s <> own_session_id env ->
  get_screen_text s = Some screen_text ->
  parse_multiple_choice (strip_ansi screen_text) = Some q ->
  (forall once cur session st,
     let st' := fst (watch_session once cur session st) in
     st' = st \/
     exists q',
       (session_id session ++ U ":" ++ question q' ∉ seen_questions st) /\
       seen_questions st' =
         {[session_id session ++ U ":" ++ question q']} ∪ seen_questions st /\
       printed st' = printed st ++
         [{| ev_session_id := session_id session; ev_question := q' |}]) /\
  (forall once st,
     let key := session_id s ++ U ":" ++ question q in
     let st' := fst (watch_session once (own_session_id env) s st) in
     (key ∈ seen_questions st -> st' = st) /\
     (key ∉ seen_questions st ->
        printed st' = printed st ++ [{| ev_session_id := session_id s; ev_question := q |}] /\
        seen_questions st' = {[key]} ∪ seen_questions st) /\
     key ∈ seen_questions st') /\
  (forall app,
     watch_for_questions env false [app; app] = watch_for_questions env false [app]) /\
  printed (fst (watch_for_questions env false [one_tab [s]; one_tab [s]]))
    = [{| ev_session_id := session_id s; ev_question := q |}].
Proof.
  intros Hother Htext Hparse.
  assert (Hstep : forall once st,
    watch_session once (own_session_id env) s st =
      if bool_decide (session_id s ++ U ":" ++ question q ∈ seen_questions st)
      then (st, false)
      else ({| seen_questions := {[session_id s ++ U ":" ++ question q]} ∪ seen_questions st;
               printed := printed st ++
                 [{| ev_session_id := session_id s; ev_question := q |}] |}, once)).
  { intros once st. unfold watch_session.
    rewrite bool_decide_eq_false_2 by exact Hother. now rewrite Htext, Hparse. }
  split; [|split; [|split]].
  - intros once cur session st st'. subst st'. unfold watch_session.
    destruct (bool_decide (session_id session = cur)); [now left|].
    destruct (get_screen_text session) as [text'|]; [|now left].
    destruct (parse_multiple_choice (strip_ansi text')) as [q'|]; [|now left].
    cbv zeta. case_bool_decide; [now left|].
    right. exists q'. cbn [fst seen_questions printed]. now repeat split.
  - intros once st key st'. subst st'. rewrite Hstep. fold key.
    case_bool_decide; simpl.
    + split; [reflexivity|]. split; [contradiction | assumption].
    + split; [contradiction|]. split; [split; reflexivity | set_solver].
  - intros app. unfold watch_for_questions. simpl.
    rewrite !watch_tick_flat.
    pose proof (watch_pass_seen (own_session_id env) (all_sessions app)
                  {| seen_questions := ∅; printed := [] |}) as [Hret Hseen].
    destruct (for_each _ (all_sessions app) _) as [st1 r1]. simpl in Hret, Hseen.
    subst r1. rewrite watch_tick_flat, watch_pass_quiet; [reflexivity | exact Hseen].
  - unfold watch_for_questions, one_tab, watch_tick. simpl.
    rewrite Hstep. rewrite bool_decide_eq_false_2 by set_solver. simpl.
    rewrite Hstep. rewrite bool_decide_eq_true_2 by set_solver. reflexivity.
Qed.

Lemma watch_reports_once_witness :
  session_id example_session <> own_session_id EXAMPLE_ENV /\
  printed (fst (watch_for_questions EXAMPLE_ENV false
                  [one_tab [example_session]; one_tab [example_session]]))
    = [{| ev_session_id := U "w0t1p0"; ev_question := example_question |}].
Proof.
  split; [vm_compute; discriminate|].
  apply (watch_reports_once EXAMPLE_ENV example_session example_screen example_question).
  - vm_compute. discriminate.
  - reflexivity.
  - vm_compute. reflexivity.
Defined.

(** ** Removing escape sequences *)

Lemma star_skip {R : Type} (p : N -> bool) (k : nat -> pystr -> option R) :
  (forall pos c s, p c = true -> k pos (c :: s) = None) ->
  forall s pos, Re.star p pos s k = k (fst (skip p pos s)) (snd (skip p pos s)).
Proof.
  intros Hk. induction s as [|c s IH]; intros pos; simpl; [reflexivity|].
  destruct (p c) eqn:Hc; [|reflexivity].
  rewrite IH. rewrite (Hk pos c s Hc).
  now destruct (k (fst (skip p (S pos) s)) (snd (skip p (S pos) s))).
Qed.

Lemma classes_disjoint (c : N) :
  (is_param c = true -> is_inter c = false /\ is_final c = false) /\
  (is_inter c = true -> is_final c = false).
Proof.
  unfold is_param, is_inter, is_final, between.
  split; intros H; apply andb_true_iff in H as [H1 H2];
    apply N.leb_le in H1, H2; rewrite ?andb_false_iff, ?N.leb_gt; [split|]; lia.
Qed.

(** The matcher run on [ansi_escape] does what [ansi_match] does. *)
Lemma match_at_ansi (pos : nat) (s : pystr) :
  Re.match_at ansi_escape pos s =
    match ansi_match pos s with
    | Some (e, rest) => Some {| Re.m_end := e; Re.m_rest := rest; Re.m_groups := [] |}
    | None => None
    end.
Proof.
  unfold Re.match_at, ansi_escape, ansi_match, Re.Chr. cbn [Re.run].
  destruct s as [|c0 [|c rest]]; [reflexivity | now destruct (ESC =? c0) |].
  destruct (ESC =? c0); [|reflexivity].
  destruct (is_fe c); [reflexivity|].
  destruct (LBRACKET =? c); [|reflexivity].
  rewrite star_skip.
  2:{ intros pos' c' s' Hc'. destruct (classes_disjoint c') as [Hd _].
      destruct (Hd Hc') as [Hi Hf]. simpl. now rewrite Hi, Hf. }
  destruct (skip is_param (S (S pos)) rest) as [p1 r1]. cbn [fst snd].
  rewrite star_skip.
  2:{ intros pos' c' s' Hc'. destruct (classes_disjoint c') as [_ Hd].
      now rewrite (Hd Hc'). }
  destruct (skip is_inter p1 r1) as [p2 [|f r3]]; cbn [fst snd]; [reflexivity|].
  now destruct (is_final f).
Qed.

Lemma skip_spec (p : N -> bool) (s : pystr) (pos : nat) :
  exists span,
    s = span ++ snd (skip p pos s) /\
    fst (skip p pos s) = (pos + List.length span)%nat /\
    Forall (fun c => p c = true) span.
Proof.
  revert pos. induction s as [|c s IH]; intros pos; simpl.
  - exists []. repeat split; [simpl; lia | constructor].
  - destruct (p c) eqn:Hc.
    + destruct (IH (S pos)) as (span & Hs & Hpos & Hall).
      exists (c :: span). repeat split.
      * simpl. now rewrite <- Hs.
      * rewrite Hpos. simpl. lia.
      * now constructor.
    + exists []. repeat split; [simpl; lia | constructor].
Qed.

(** Greedy repetition stops at a given character that is not in the class. *)
Lemma skip_app_stop (p : N -> bool) (x : N) (t s : pystr) (pos : nat) :
  p x = false ->
  skip p pos (s ++ x :: t) = (fst (skip p pos s), snd (skip p pos s) ++ x :: t).
Proof.
  intros Hx. revert pos. induction s as [|c s IH]; intros pos; simpl.
  - now rewrite Hx.
  - destruct (p c); [apply IH | reflexivity].
Qed.

(** Text added after the place where greedy repetition stopped is not read. *)
Lemma skip_app_rest (p : N -> bool) (t s : pystr) (pos : nat) :
  snd (skip p pos s) <> [] ->
  skip p pos (s ++ t) = (fst (skip p pos s), snd (skip p pos s) ++ t).
Proof.
  revert pos. induction s as [|c s IH]; intros pos; simpl; [congruence|].
  destruct (p c); [apply IH | reflexivity].
Qed.

Lemma class_removable (c : N) :
  is_fe c = true \/ is_param c = true \/ is_inter c = true \/ is_final c = true
    \/ c = LBRACKET \/ c = ESC ->
  always_kept c = false.
Proof.
  unfold is_fe, is_param, is_inter, is_final, between, always_kept, LBRACKET, ESC.
  rewrite !orb_true_iff, !andb_true_iff, !N.leb_le.
  intros H. apply andb_false_iff. rewrite negb_false_iff, N.eqb_eq.
  rewrite orb_false_iff, !N.ltb_ge. lia.
Qed.

(** What a match takes away: at least two characters, the first one ESC,
    none of them among the characters always kept. *)
Lemma ansi_match_spec (pos : nat) (s : pystr) (e : nat) (rest : pystr) :
  ansi_match pos s = Some (e, rest) ->
  exists span,
    s = ESC :: span ++ rest /\
    e = (pos + S (List.length span))%nat /\
    span <> [] /\
    Forall (fun c => always_kept c = false) span.
Proof.
  unfold ansi_match. destruct s as [|c0 [|c s]]; try discriminate.
  destruct (ESC =? c0) eqn:H0; [|discriminate]. apply N.eqb_eq in H0. subst c0.
  destruct (is_fe c) eqn:Hfe.
  { intros [= <- <-]. exists [c]. repeat split; [simpl; lia | discriminate|].
    constructor; [|constructor]. apply class_removable. now left. }
  destruct (LBRACKET =? c) eqn:Hc; [|discriminate]. apply N.eqb_eq in Hc. subst c.
  destruct (skip_spec is_param s (S (S pos))) as (ps & Hps & Hp1 & Hpall).
  destruct (skip is_param (S (S pos)) s) as [p1 r1]. cbn [fst snd] in *.
  destruct (skip_spec is_inter r1 p1) as (is' & His & Hp2 & Hiall).
  destruct (skip is_inter p1 r1) as [p2 r2]. cbn [fst snd] in *.
  destruct r2 as [|f r3]; [discriminate|].
  destruct (is_final f) eqn:Hf; [|discriminate]. intros [= <- <-].
  exists (LBRACKET :: ps ++ is' ++ [f]). repeat split.
  - rewrite Hps, His. simpl. now rewrite <- !app_assoc.
  - simpl. rewrite !length_app. simpl. lia.
  - discriminate.
  - constructor; [apply class_removable; tauto|].
    rewrite !Forall_app. repeat split.
    + eapply Forall_impl; [exact Hpall|]. intros x Hx. apply class_removable. tauto.
    + eapply Forall_impl; [exact Hiall|]. intros x Hx. apply class_removable. tauto.
    + constructor; [apply class_removable; tauto | constructor].
Qed.

Lemma ansi_match_head (pos : nat) (c : N) (s : pystr) :
  c <> ESC -> ansi_match pos (c :: s) = None.
Proof.
  intros Hc. unfold ansi_match. destruct s; [reflexivity|].
  destruct (ESC =? c) eqn:H; [|reflexivity]. apply N.eqb_eq in H. congruence.
Qed.

(** A match inside [b] is not changed by an ESC that follows [b]. *)
Lemma ansi_match_app_esc (pos : nat) (c0 : N) (b r : pystr) :
  ansi_match pos ((c0 :: b) ++ ESC :: r) =
    match ansi_match pos (c0 :: b) with
    | Some (e, rest) => Some (e, rest ++ ESC :: r)
    | None => None
    end.
Proof.
  unfold ansi_match. destruct b as [|c b]; cbn [app].
  - now destruct (ESC =? c0).
  - destruct (ESC =? c0); [|reflexivity].
    destruct (is_fe c); [reflexivity|].
    destruct (LBRACKET =? c); [|reflexivity].
    rewrite (skip_app_stop is_param ESC r b) by reflexivity.
    destruct (skip is_param (S (S pos)) b) as [p1 r1]. cbn [fst snd].
    rewrite (skip_app_stop is_inter ESC r r1) by reflexivity.
    destruct (skip is_inter p1 r1) as [p2 [|f r3]]; cbn [fst snd app]; [reflexivity|].
    now destruct (is_final f).
Qed.

(** A match of the whole of [q] is the match at the head of [q ++ t]. *)
Lemma ansi_match_app (pos : nat) (q t : pystr) (e : nat) :
  ansi_match pos q = Some (e, []) -> ansi_match pos (q ++ t) = Some (e, t).
Proof.
  unfold ansi_match. destruct q as [|c0 [|c q]]; try discriminate. cbn [app].
  destruct (ESC =? c0); [|discriminate].
  destruct (is_fe c); [now intros [= <- ->]|].
  destruct (LBRACKET =? c); [|discriminate].
  destruct (skip is_param (S (S pos)) q) as [p1 r1] eqn:H1.
  destruct (skip is_inter p1 r1) as [p2 r2] eqn:H2.
  destruct r2 as [|f r3]; [discriminate|].
  destruct (is_final f) eqn:Hf; [|discriminate]. intros [= <- ->].
  assert (Hr1 : r1 <> []).
  { intros ->. simpl in H2. discriminate. }
  rewrite (skip_app_rest is_param t q) by (rewrite H1; exact Hr1).
  rewrite H1. cbn [fst snd].
  rewrite (skip_app_rest is_inter t r1) by (rewrite H2; discriminate).
  rewrite H2. cbn [fst snd app]. now rewrite Hf.
Qed.

Lemma sub_from_skip (r : Re.re) (s : pystr) (n pos : nat) :
  Re.sub_from r n pos s = Re.sub_from r 0 (pos + n) (drop n s).
Proof.
  revert n pos. induction s as [|c s IH]; intros n pos.
  - now destruct n.
  - destruct n as [|n]; simpl.
    + now rewrite Nat.add_0_r.
    + rewrite IH. f_equal. lia.
Qed.

(** One step of the substitution: drop a match, or keep a character. *)
Lemma sub_from_step (pos : nat) (c : N) (s : pystr) :
  Re.sub_from ansi_escape 0 pos (c :: s) =
    match ansi_match pos (c :: s) with
    | Some (e, rest) => Re.sub_from ansi_escape 0 e rest
    | None => c :: Re.sub_from ansi_escape 0 (S pos) s
    end.
Proof.
  cbn [Re.sub_from]. rewrite match_at_ansi.
  destruct (ansi_match pos (c :: s)) as [[e rest]|] eqn:Hm; [|reflexivity].
  destruct (ansi_match_spec _ _ _ _ Hm) as (span & Hs & -> & Hne & _).
  cbn [Re.m_end]. injection Hs as -> ->.
  replace (pos + S (List.length span) - pos)%nat with (S (List.length span)) by lia.
  destruct span as [|x span]; [congruence|]. simpl List.length.
  rewrite sub_from_skip. f_equal; [lia|].
  change (x :: span) with ([x] ++ span). rewrite <- app_assoc. simpl.
  now rewrite drop_app_length.
Qed.

Lemma skip_rest_pos (p : N -> bool) (s : pystr) (pos pos' : nat) :
  snd (skip p pos s) = snd (skip p pos' s).
Proof.
  revert pos pos'. induction s as [|c s IH]; intros pos pos'; simpl; [reflexivity|].
  destruct (p c); [apply IH | reflexivity].
Qed.

Lemma ansi_match_rest_pos (pos pos' : nat) (s : pystr) :
  snd <$> ansi_match pos s = snd <$> ansi_match pos' s.
Proof.
  destruct s as [|c0 [|c s]]; try reflexivity. unfold ansi_match.
  destruct (ESC =? c0); [|reflexivity].
  destruct (is_fe c); [reflexivity|].
  destruct (LBRACKET =? c); [|reflexivity].
  pose proof (skip_rest_pos is_param s (S (S pos)) (S (S pos'))) as H1.
  destruct (skip is_param (S (S pos)) s) as [p1 r1].
  destruct (skip is_param (S (S pos')) s) as [p1' r1']. simpl in H1. subst r1'.
  pose proof (skip_rest_pos is_inter r1 p1 p1') as H2.
  destruct (skip is_inter p1 r1) as [p2 r2].
  destruct (skip is_inter p1' r1) as [p2' r2']. simpl in H2. subst r2'.
  destruct r2 as [|f r3]; [reflexivity|]. now destruct (is_final f).
Qed.

Lemma ansi_match_shorter (pos : nat) (s : pystr) (e : nat) (rest : pystr) :
  ansi_match pos s = Some (e, rest) -> (List.length rest < List.length s)%nat.
Proof.
  intros Hm. destruct (ansi_match_spec _ _ _ _ Hm) as (span & -> & _).
  simpl. rewrite length_app. lia.
Qed.

(** The result does not depend on where the text starts. *)
Lemma sub_from_pos (n : nat) :
  forall (s : pystr) (pos : nat), (List.length s <= n)%nat ->
    Re.sub_from ansi_escape 0 pos s = strip_ansi s.
Proof.
  unfold strip_ansi, Re.sub_empty.
  induction n as [|n IH]; intros [|c s] pos Hlen; simpl in Hlen; try reflexivity; [lia|].
  rewrite !sub_from_step.
  pose proof (ansi_match_rest_pos pos 0 (c :: s)) as Hrest.
  destruct (ansi_match pos (c :: s)) as [[e rest]|] eqn:Hm;
    destruct (ansi_match 0 (c :: s)) as [[e0 rest0]|] eqn:Hm0;
    simpl in Hrest; try discriminate.
  - injection Hrest as ->. apply ansi_match_shorter in Hm0. simpl in Hm0.
    rewrite (IH rest0 e), (IH rest0 e0) by lia. reflexivity.
  - rewrite (IH s (S pos)), (IH s 1%nat) by lia. reflexivity.
Qed.

(** [strip_ansi], step by step: a match at the head is dropped, another
    character is kept. *)
Lemma strip_ansi_step (c : N) (s : pystr) :
  strip_ansi (c :: s) =
    match ansi_match 0 (c :: s) with
    | Some (_, rest) => strip_ansi rest
    | None => c :: strip_ansi s
    end.
Proof.
  unfold strip_ansi at 1, Re.sub_empty. rewrite sub_from_step.
  destruct (ansi_match 0 (c :: s)) as [[e rest]|].
  - now apply (sub_from_pos (List.length rest)).
  - f_equal. now apply (sub_from_pos (List.length s)).
Qed.

Lemma strip_ansi_no_esc (s : pystr) : has ESC s = false -> strip_ansi s = s.
Proof.
  induction s as [|c s IH]; intros Hs; [reflexivity|].
  unfold has in Hs. cbn [existsb] in Hs. apply orb_false_iff in Hs as [Hc Hs].
  rewrite strip_ansi_step, ansi_match_head.
  - now rewrite IH.
  - intros ->. now rewrite N.eqb_refl in Hc.
Qed.

Lemma filter_none {A : Type} (f : A -> bool) (l : list A) :
  Forall (fun x => f x = false) l -> List.filter f l = [].
Proof.
  induction 1 as [|x l Hx _ IH]; simpl; [reflexivity|]. now rewrite Hx.
Qed.

Lemma strip_ansi_kept (n : nat) :
  forall s : pystr, (List.length s <= n)%nat ->
    List.filter always_kept (strip_ansi s) = List.filter always_kept s /\
    sublist (strip_ansi s) s.
Proof.
  induction n as [|n IH]; intros [|c s] Hlen; simpl in Hlen;
    try (split; [reflexivity | constructor]); [lia|].
  rewrite strip_ansi_step.
  destruct (ansi_match 0 (c :: s)) as [[e rest]|] eqn:Hm.
  - pose proof (ansi_match_shorter _ _ _ _ Hm) as Hshort. simpl in Hshort.
    destruct (ansi_match_spec _ _ _ _ Hm) as (span & Hs & _ & _ & Hall).
    destruct (IH rest) as [Hkept Hsub]; [lia|]. rewrite Hs. split.
    + change (ESC :: span ++ rest) with ((ESC :: span) ++ rest).
      rewrite List.filter_app, Hkept.
      rewrite (filter_none always_kept (ESC :: span)); [reflexivity|].
      constructor; [reflexivity | exact Hall].
    + change (ESC :: span ++ rest) with ((ESC :: span) ++ rest).
      now apply sublist_inserts_l.
  - destruct (IH s) as [Hkept Hsub]; [lia|]. split.
    + simpl. now rewrite Hkept.
    + now apply sublist_skip.
Qed.

Lemma strip_ansi_app_esc (n : nat) :
  forall b r : pystr, (List.length b <= n)%nat ->
    strip_ansi (b ++ ESC :: r) = strip_ansi b ++ strip_ansi (ESC :: r).
Proof.
  induction n as [|n IH]; intros [|c b] r Hlen; simpl in Hlen; try reflexivity; [lia|].
  rewrite (strip_ansi_step c b).
  change ((c :: b) ++ ESC :: r) with (c :: (b ++ ESC :: r)).
  rewrite strip_ansi_step.
  change (c :: (b ++ ESC :: r)) with ((c :: b) ++ ESC :: r).
  rewrite ansi_match_app_esc.
  destruct (ansi_match 0 (c :: b)) as [[e rest]|] eqn:Hm.
  - apply ansi_match_shorter in Hm. simpl in Hm. apply IH. lia.
  - rewrite IH by lia. reflexivity.
Qed.

Lemma skip_all (p : N -> bool) (span : pystr) (pos : nat) :
  Forall (fun c => p c = true) span ->
  skip p pos span = ((pos + List.length span)%nat, []).
Proof.
  intros Hall. revert pos. induction Hall as [|c span Hc _ IH]; intros pos; simpl.
  - now rewrite Nat.add_0_r.
  - rewrite Hc, IH. f_equal. lia.
Qed.

Lemma skip_prefix (p : N -> bool) (span : pystr) (x : N) (t : pystr) (pos : nat) :
  Forall (fun c => p c = true) span -> p x = false ->
  skip p pos (span ++ x :: t) = ((pos + List.length span)%nat, x :: t).
Proof.
  intros Hall Hx. rewrite skip_app_stop by exact Hx. now rewrite skip_all.
Qed.

Lemma final_not_before (c : N) :
  is_final c = true -> is_param c = false /\ is_inter c = false.
Proof.
  destruct (is_param c) eqn:Hp.
  { destruct (classes_disjoint c) as [Hd _]. destruct (Hd Hp). congruence. }
  destruct (is_inter c) eqn:Hi; [|now split].
  destruct (classes_disjoint c) as [_ Hd]. rewrite (Hd Hi). discriminate.
Qed.

Lemma inter_not_param (c : N) : is_inter c = true -> is_param c = false.
Proof.
  intros Hi. destruct (is_param c) eqn:Hp; [|reflexivity].
  destruct (classes_disjoint c) as [Hd _]. destruct (Hd Hp). congruence.
Qed.

(** The two kinds of sequences the pattern recognizes. *)
Lemma esc_pair_recognized (c : N) : is_fe c = true -> recognized [ESC; c] = true.
Proof.
  intros Hc. unfold recognized, Re.match_. rewrite match_at_ansi.
  unfold ansi_match. rewrite N.eqb_refl, Hc. reflexivity.
Qed.

Lemma csi_recognized (params inters : pystr) (final : N) :
  Forall (fun c => is_param c = true) params ->
  Forall (fun c => is_inter c = true) inters ->
  is_final final = true ->
  recognized (ESC :: LBRACKET :: params ++ inters ++ [final]) = true.
Proof.
  intros Hps His Hf. destruct (final_not_before final Hf) as [Hfp Hfi].
  unfold recognized, Re.match_. rewrite match_at_ansi.
  unfold ansi_match. rewrite !N.eqb_refl.
  change (is_fe LBRACKET) with false. cbv iota.
  assert (Hp : skip is_param 2 (params ++ inters ++ [final])
               = ((2 + List.length params)%nat, inters ++ [final])).
  { destruct inters as [|i inters]; cbn [app].
    - now apply skip_prefix.
    - apply skip_prefix; [exact Hps|]. apply inter_not_param.
      now apply Forall_cons in His as [Hi _]. }
  rewrite Hp. rewrite (skip_prefix is_inter inters final []) by assumption.
  now rewrite Hf.
Qed.

Lemma recognized_match (q : pystr) :
  recognized q = true ->
  exists e q', q = ESC :: q' /\ ansi_match 0 q = Some (e, []).
Proof.
  unfold recognized, Re.match_. rewrite match_at_ansi.
  destruct (ansi_match 0 q) as [[e rest]|] eqn:Hm; [|discriminate].
  cbn [Re.m_rest]. destruct rest; [|discriminate]. intros _.
  destruct (ansi_match_spec _ _ _ _ Hm) as (span & Hs & _).
  exists e, (span ++ []). now split.
Qed.

(** What a match at the head of a text takes away is a recognized sequence. *)
Lemma ansi_match_recognized (pos : nat) (s : pystr) (e : nat) (rest : pystr) :
  ansi_match pos s = Some (e, rest) ->
  exists q, s = q ++ rest /\ recognized q = true.
Proof.
  unfold ansi_match. destruct s as [|c0 [|c s]]; try discriminate.
  destruct (ESC =? c0) eqn:H0; [|discriminate]. apply N.eqb_eq in H0. subst c0.
  destruct (is_fe c) eqn:Hfe.
  { intros [= <- <-]. exists [ESC; c]. split; [reflexivity|].
    now apply esc_pair_recognized. }
  destruct (LBRACKET =? c) eqn:Hc; [|discriminate]. apply N.eqb_eq in Hc. subst c.
  destruct (skip_spec is_param s (S (S pos))) as (ps & Hps & _ & Hpall).
  destruct (skip is_param (S (S pos)) s) as [p1 r1]. cbn [fst snd] in *.
  destruct (skip_spec is_inter r1 p1) as (is' & His & _ & Hiall).
  destruct (skip is_inter p1 r1) as [p2 r2]. cbn [fst snd] in *.
  destruct r2 as [|f r3]; [discriminate|].
  destruct (is_final f) eqn:Hf; [|discriminate]. intros [= <- <-].
  exists (ESC :: LBRACKET :: ps ++ is' ++ [f]). split.
  - rewrite Hps, His. simpl. now rewrite <- !app_assoc.
  - now apply csi_recognized.
Qed.

Lemma begins_sequence_match (s : pystr) :
  begins_sequence s = Re.matched (ansi_match 0 s).
Proof.
  unfold begins_sequence, Re.match_. rewrite match_at_ansi.
  now destruct (ansi_match 0 s) as [[e rest]|].
Qed.

(** The pattern matches at the head of a text exactly when the text
    begins with a recognized sequence. *)
Lemma begins_sequence_iff (s : pystr) :
  begins_sequence s = true <->
  exists q rest, s = q ++ rest /\ recognized q = true.
Proof.
  rewrite begins_sequence_match. split.
  - destruct (ansi_match 0 s) as [[e rest]|] eqn:Hm; [|discriminate]. intros _.
    destruct (ansi_match_recognized _ _ _ _ Hm) as (q & Hs & Hq). now exists q, rest.
  - intros (q & rest & -> & Hq).
    destruct (recognized_match q Hq) as (e & q' & _ & Hm).
    now rewrite (ansi_match_app 0 q rest e Hm).
Qed.

(** A character that does not begin a match is kept. *)
Lemma strip_ansi_keeps_head (c : N) (s : pystr) :
  begins_sequence (c :: s) = false ->
  strip_ansi (c :: s) = c :: strip_ansi s.
Proof.
  rewrite begins_sequence_match, strip_ansi_step.
  now destruct (ansi_match 0 (c :: s)) as [[e rest]|].
Qed.

Lemma strip_ansi_sequence_free (s : pystr) :
  sequence_free s = true -> strip_ansi s = s.
Proof.
  induction s as [|c s IH]; [reflexivity|]. cbn [sequence_free].
  intros H. apply andb_true_iff in H as [Hc Hs]. apply negb_true_iff in Hc.
  now rewrite (strip_ansi_keeps_head c s Hc), (IH Hs).
Qed.

(** C6, as amended: [strip_ansi] is a total function that deletes exactly
    the sequences that its pattern recognizes (ESC followed by one of @-Z or
    \-_, and CSI sequences) where its scan from the left meets them, and
    nothing else. A recognized sequence is deleted wherever it stands; a
    character at which no recognized sequence begins is kept, whatever it
    is; so a text in which the pattern matches nowhere is returned as it is
    (a text without ESC among them), the result is always a subsequence of
    the text, and line feeds, the other characters below U+0020 except ESC,
    and all characters above U+007E, such as the checkbox and selector
    glyphs, are all kept, in order. *)
Theorem strip_ansi_removes_recognized (before seq after : pystr) :
  recognized seq = true ->
  strip_ansi (before ++ seq ++ after) = strip_ansi before ++ strip_ansi after /\
  (forall text, has ESC text = false -> strip_ansi text = text) /\
  (forall text,
     List.filter always_kept (strip_ansi text) = List.filter always_kept text) /\
  (forall text, sublist (strip_ansi text) text) /\
  (forall c, is_fe c = true -> recognized [ESC; c] = true) /\
  (forall params inters final,
     Forall (fun c => is_param c = true) params ->
     Forall (fun c => is_inter c = true) inters ->
     is_final final = true ->
     recognized (ESC :: LBRACKET :: params ++ inters ++ [final]) = true) /\
  (forall c s,
     begins_sequence (c :: s) = false -> strip_ansi (c :: s) = c :: strip_ansi s) /\
  (forall s,
     begins_sequence s = true <->
     exists q rest, s = q ++ rest /\ recognized q = true) /\
  (forall q rest, recognized q = true -> strip_ansi (q ++ rest) = strip_ansi rest) /\
  (forall text, sequence_free text = true -> strip_ansi text = text) /\
  strip_ansi [] = [] /\
  always_kept LF = true /\ always_kept CHECKBOX = true /\
  always_kept CHECKED = true /\ always_kept SELECTOR = true.
Proof.
  intros Hseq.
  assert (Hdrop : forall q rest, recognized q = true ->
                    strip_ansi (q ++ rest) = strip_ansi rest).
  { intros q rest Hq. destruct (recognized_match q Hq) as (e & q' & Hq' & Hm).
    pose proof (ansi_match_app 0 q rest e Hm) as Happ.
    rewrite Hq' in Happ |- *. cbn [app] in Happ |- *.
    now rewrite strip_ansi_step, Happ. }
  destruct (recognized_match seq Hseq) as (e & q' & Hq & Hm).
  split; [|split; [|split; [|split; [|split; [|split; [|split; [|split;
    [|split; [|split; [|split]]]]]]]]]];
    [| | | | exact esc_pair_recognized | exact csi_recognized
     | exact strip_ansi_keeps_head | exact begins_sequence_iff | exact Hdrop
     | exact strip_ansi_sequence_free | reflexivity |].
  - rewrite <- (Hdrop seq after Hseq). rewrite Hq. cbn [app].
    apply (strip_ansi_app_esc (List.length before)). lia.
  - apply strip_ansi_no_esc.
  - intros text. now apply (strip_ansi_kept (List.length text)).
  - intros text. now apply (strip_ansi_kept (List.length text)).
  - repeat split.
Qed.

Lemma strip_ansi_removes_recognized_witness :
  recognized ([ESC] ++ U "[1;31m") = true /\
  strip_ansi (U "☐ " ++ ([ESC] ++ U "[1;31m") ++ U "Next task") = U "☐ Next task" /\
  strip_ansi (charset_shift ++ U " hello world") = charset_shift ++ U " hello world".
Proof.
  split; [reflexivity|].
  destruct (strip_ansi_removes_recognized (U "☐ ") ([ESC] ++ U "[1;31m") (U "Next task"))
    as (H & _ & _ & _ & _ & _ & _ & _ & _ & Hfree & _); [reflexivity|].
  split; [rewrite H; reflexivity|].
  apply Hfree. reflexivity.
Defined.

(** C6, as stated, fails: of an OSC sequence only the first two characters
    are removed, the title and the bell stay; a charset shift stays whole;
    so control characters other than white space remain in the result. *)
Lemma strip_ansi_keeps_osc_payload :
  strip_ansi osc_title = U "0;title" ++ [7] /\
  strip_ansi charset_shift = charset_shift /\
  ~ (forall text c, In c (strip_ansi text) -> raw_control c = false).
Proof.
  split; [vm_compute; reflexivity|]. split; [vm_compute; reflexivity|].
  intros H. specialize (H osc_title 7).
  assert (Hin : In 7 (strip_ansi osc_title)).
  { vm_compute. do 7 right. now left. }
  specialize (H Hin). vm_compute in H. discriminate.
Qed.

(** * Further properties of the code *)

(** ** Locating sessions *)

Lemma first_of_split {A B : Type} (body : A -> option B) (l : list A) (y : B) :
  first_of body l = Some y ->
  exists before x after,
    l = before ++ x :: after /\ body x = Some y /\
    forall x', In x' before -> body x' = None.
Proof.
  induction l as [|x l IH]; simpl; [discriminate|].
  destruct (body x) as [y'|] eqn:Hx.
  - intros [= ->]. exists [], x, l. repeat split; [exact Hx|]. intros x' [].
  - intros Hl. destruct (IH Hl) as (before & x0 & after & -> & Hx0 & Hbefore).
    exists (x :: before), x0, after. repeat split; [exact Hx0|].
    intros x' [<-|Hin]; [exact Hx | now apply Hbefore].
Qed.

Lemma first_of_none_inv {A B : Type} (body : A -> option B) (l : list A) (x : A) :
  first_of body l = None -> In x l -> body x = None.
Proof.
  induction l as [|x' l IH]; simpl; [intros _ []|].
  destruct (body x') eqn:Hx'; [discriminate|].
  intros Hl [<-|Hin]; [exact Hx' | now apply IH].
Qed.

Lemma check_session_some (own : pystr) (s s' : Session) :
  check_session own s = Some s' -> s' = s /\ shows_prompt own s.
Proof.
  unfold check_session, shows_prompt. case_bool_decide as Hid; [discriminate|].
  destruct (get_screen_text s) as [screen_text|]; [|discriminate].
  destruct (has SELECTOR screen_text || has CHECKBOX screen_text) eqn:Hshows;
    [|discriminate].
  intros [= <-]. split; [reflexivity|]. split; [exact Hid|].
  now exists screen_text.
Qed.

Lemma check_session_none (own : pystr) (s : Session) :
  check_session own s = None <-> ~ shows_prompt own s.
Proof.
  unfold check_session, shows_prompt. split.
  - intros Hnone (Hid & screen_text & Htext & Hshows).
    rewrite bool_decide_eq_false_2, Htext, Hshows in Hnone by exact Hid. discriminate.
  - intros Hnot. case_bool_decide as Hid; [reflexivity|].
    destruct (get_screen_text s) as [screen_text|]; [|reflexivity].
    destruct (has SELECTOR screen_text || has CHECKBOX screen_text) eqn:Hshows;
      [|reflexivity].
    exfalso. apply Hnot. split; [exact Hid|]. now exists screen_text.
Qed.

(** X1: the session found is the first one, in enumeration order, that is
    not the caller's own and whose readable screen has a selector or an
    unchecked checkbox; no session is found exactly when there is none. *)
Theorem find_claude_session_first (env : pystr) (app : App) :
  match find_claude_session env app with
  | Some s =>
    shows_prompt (own_session_id env) s /\
    exists before after,
      all_sessions app = before ++ s :: after /\
      forall s', In s' before -> ~ shows_prompt (own_session_id env) s'
  | None =>
    forall s, In s (all_sessions app) -> ~ shows_prompt (own_session_id env) s
  end.
Proof.
  rewrite find_claude_session_flat.
  destruct (first_of _ (all_sessions app)) as [s|] eqn:Hfind.
  - destruct (first_of_split _ _ _ Hfind) as (before & x & after & Hall & Hx & Hbefore).
    apply check_session_some in Hx as [-> Hshows]. split; [exact Hshows|].
    exists before, after. split; [exact Hall|].
    intros s' Hin. apply check_session_none. now apply Hbefore.
  - intros s Hin. apply check_session_none.
    now apply (first_of_none_inv _ _ s Hfind).
Qed.

(** As the iterm2 package's lookup is modelled, a session named by its id is
    the first one with that id, whether
    or not it is the caller's own or can be read; none is returned exactly
    when no session has the id. *)
Theorem get_session_by_id_first (app : App) (id : pystr) :
  match get_session_by_id app id with
  | Some s =>
    session_id s = id /\
    exists before after,
      all_sessions app = before ++ s :: after /\
      forall s', In s' before -> session_id s' <> id
  | None => forall s, In s (all_sessions app) -> session_id s <> id
  end.
Proof.
  set (body := fun session : Session =>
                 if bool_decide (session_id session = id) then Some session else None).
  assert (Hflat : get_session_by_id app id = first_of body (all_sessions app)).
  { unfold get_session_by_id, all_sessions, body. rewrite first_of_flat_map.
    induction (terminal_windows app) as [|w ws IH]; simpl; [reflexivity|].
    rewrite first_of_flat_map, IH. reflexivity. }
  assert (Hnone : forall s, body s = None -> session_id s <> id).
  { intros s. unfold body. case_bool_decide; [discriminate | now intros _]. }
  rewrite Hflat. destruct (first_of body (all_sessions app)) as [s|] eqn:Hfind.
  - destruct (first_of_split _ _ _ Hfind) as (before & x & after & Hall & Hx & Hbefore).
    unfold body in Hx. case_bool_decide as Hid; [|discriminate].
    injection Hx as ->. split; [exact Hid|]. exists before, after.
    split; [exact Hall|]. intros s' Hin. apply Hnone. now apply Hbefore.
  - intros s Hin. apply Hnone. now apply (first_of_none_inv _ _ s Hfind).
Qed.

Lemma after_first_app (sep : N) (prefix rest : pystr) :
  has sep prefix = false -> after_first sep (prefix ++ sep :: rest) = rest.
Proof.
  induction prefix as [|c prefix IH]; simpl.
  - now rewrite N.eqb_refl.
  - unfold has. cbn [existsb]. intros Hc. apply orb_false_iff in Hc as [Hc Hrest].
    rewrite N.eqb_sym, Hc. now apply IH.
Qed.

Lemma has_app (c : N) (s t : pystr) : has c (s ++ t) = has c s || has c t.
Proof. unfold has. apply existsb_app. Qed.

(** X2: the caller's own session id is what follows the first colon of
    ITERM_SESSION_ID, and the whole value when it has no colon. *)
Theorem own_session_id_after_colon (prefix id : pystr) :
  has COLON prefix = false ->
  own_session_id (prefix ++ COLON :: id) = id /\
  own_session_id prefix = prefix.
Proof.
  intros Hprefix. unfold own_session_id. rewrite Hprefix, has_app. split; [|reflexivity].
  replace (has COLON (COLON :: id)) with true by reflexivity.
  rewrite orb_true_r. now apply after_first_app.
Qed.

Lemma own_session_id_after_colon_witness :
  has COLON (U "w0t0p0") = false /\
  own_session_id (U "w0t0p0:4F2A:71") = U "4F2A:71".
Proof.
  split; [reflexivity|].
  apply (own_session_id_after_colon (U "w0t0p0") (U "4F2A:71")). reflexivity.
Defined.

(** ** Sending an answer *)

Lemma last_sent_enter (trace : list io) (keys : list pystr) :
  last (sent trace ++ keys ++ [ENTER]) = Some ENTER.
Proof. rewrite app_assoc. apply last_snoc. Qed.

Lemma answer_question_atomic (q : DetectedQuestion) (choice : option Z)
    (text : option pystr) :
  (is_success (fst (answer_question q choice text)) = false ->
   snd (answer_question q choice text) = []) /\
  (is_success (fst (answer_question q choice text)) = true ->
   last (sent (snd (answer_question q choice text))) = Some ENTER).
Proof.
  assert (Hchoice :
    forall r : option answer * list io,
      r = match choice with
          | Some ch =>
            if ((ch - 1 <? 0) || (ch - 1 >=? len (options q)))%Z
            then (Some (invalid_choice ch (len (options q))), [])
            else
              match options q !! Z.to_nat (ch - 1) with
              | Some selected =>
                (Some (selected_option ch (label selected)),
                 navigate (ch - 1 - selected_index q) ++ [Sleep 100; SendText ENTER])
              | None =>
                (None, navigate (ch - 1 - selected_index q) ++ [Sleep 100; SendText ENTER])
              end
          | None => (Some no_action, [])
          end ->
      (is_success (fst r) = false -> snd r = []) /\
      (is_success (fst r) = true -> last (sent (snd r)) = Some ENTER)).
  { intros r ->. destruct choice as [ch|]; [|split; [reflexivity | discriminate]].
    destruct ((ch - 1 <? 0) || (ch - 1 >=? len (options q)))%Z eqn:Hout;
      [split; [reflexivity | discriminate]|].
    destruct (in_range_lookup q (ch - 1)) as [o Ho]; [lia|]. rewrite Ho.
    split; [discriminate|]. intros _. cbn [snd]. rewrite sent_app.
    apply (last_sent_enter _ []). }
  unfold answer_question. destruct text as [[|c t]|].
  - apply Hchoice. reflexivity.
  - cbn [truthy fst snd is_success]. split; [discriminate|]. intros _.
    rewrite sent_app. apply (last_sent_enter _ [ENTER; c :: t]).
  - apply Hchoice. reflexivity.
Qed.

(** X3: whatever the arguments, [send_answer] touches the session only when
    it reports a success: with any error result, or when the read of the
    screen raises, nothing has been sent and no time slept; and a success
    ends with Enter. *)
Theorem send_answer_all_or_nothing (env : pystr) (app : App) (choice : option Z)
    (text target : option pystr) :
  (is_success (fst (send_answer env app choice text target)) = false ->
   snd (send_answer env app choice text target) = []) /\
  (is_success (fst (send_answer env app choice text target)) = true ->
   last (sent (snd (send_answer env app choice text target))) = Some ENTER).
Proof.
  unfold send_answer.
  destruct (target_session env app target) as [session|];
    [|split; [reflexivity | discriminate]].
  destruct (get_screen_text session) as [screen_text|];
    [|split; [reflexivity | discriminate]].
  destruct (parse_multiple_choice (strip_ansi screen_text)) as [q|];
    [|split; [reflexivity | discriminate]].
  apply answer_question_atomic.
Qed.

Lemma sent_navigate_move (selected target : Z) :
  sent (navigate (target - selected)) = keys_of_plan (plan_move selected target).
Proof.
  unfold navigate, plan_move, keys_of_plan.
  destruct (target - selected >? 0)%Z; simpl.
  - now rewrite sent_press, app_nil_r.
  - destruct (target - selected <? 0)%Z eqn:Hneg; simpl; [|reflexivity].
    rewrite sent_press, app_nil_r.
    replace (Z.abs (target - selected)) with (- (target - selected))%Z by lia.
    reflexivity.
Qed.

Lemma text_option_idx_first (opts : list QuestionOption) (i : nat) :
  match text_option_idx i opts with
  | Some idx =>
    exists before o after,
      opts = before ++ o :: after /\ idx = (i + List.length before)%nat /\
      Forall (fun o' => is_text_input o' = false) before /\ is_text_input o = true
  | None => Forall (fun o' => is_text_input o' = false) opts
  end.
Proof.
  revert i. induction opts as [|o opts IH]; intros i; simpl; [constructor|].
  destruct (is_text_input o) eqn:Ho.
  - exists [], o, opts. repeat split; [simpl; lia | constructor | exact Ho].
  - specialize (IH (S i)). destruct (text_option_idx (S i) opts) as [idx|].
    + destruct IH as (before & o' & after & -> & -> & Hbefore & Ho').
      exists (o :: before), o', after. repeat split; [simpl; lia | | exact Ho'].
      now constructor.
    + now constructor.
Qed.

(** X4: a non-empty text is always typed, whatever the choice given with
    it: the keys sent are a move from the selected option to the first
    option flagged as text input (none when there is no such option), one
    Enter, the text, one Enter. *)
Theorem free_text_plan (q : DetectedQuestion) (choice : option Z) (text : pystr) :
  truthy text = true ->
  let trace := snd (answer_question q choice (Some text)) in
  fst (answer_question q choice (Some text)) = Some (typed_text text) /\
  ((exists before o after,
      options q = before ++ o :: after /\
      Forall (fun o' => is_text_input o' = false) before /\
      is_text_input o = true /\
      sent trace =
        keys_of_plan (plan_move (selected_index q) (len before)
                      ++ [Confirm; EmitText text; Confirm])) \/
   (Forall (fun o' => is_text_input o' = false) (options q) /\
    sent trace = keys_of_plan [Confirm; EmitText text; Confirm])).
Proof.
  intros Htext trace. subst trace. unfold answer_question. rewrite Htext.
  split; [reflexivity|]. cbn [snd].
  pose proof (text_option_idx_first (options q) 0) as Hidx.
  destruct (text_option_idx 0 (options q)) as [idx|].
  - left. destruct Hidx as (before & o & after & Hopts & -> & Hbefore & Ho).
    exists before, o, after. repeat split; try assumption.
    rewrite !sent_app. cbn [sent]. rewrite app_nil_r.
    unfold keys_of_plan. rewrite flat_map_app. fold (keys_of_plan (plan_move (selected_index q) (len before))).
    rewrite <- sent_navigate_move. reflexivity.
  - right. split; [exact Hidx | reflexivity].
Qed.

Lemma free_text_plan_witness :
  truthy (U "build a CLI") = true /\
  fst (answer_question example_question (Some 9%Z) (Some (U "build a CLI")))
    = Some (typed_text (U "build a CLI")).
Proof.
  split; [reflexivity|].
  apply (free_text_plan example_question (Some 9%Z) (U "build a CLI")). reflexivity.
Defined.

Lemma length_press (key : pystr) (n : nat) :
  List.length (sent (press key n)) = n /\ total_sleep (press key n) = 50 * N.of_nat n.
Proof.
  induction n as [|n [IH1 IH2]]; simpl; [split; reflexivity|].
  split; [now rewrite IH1|]. rewrite IH2. lia.
Qed.

Lemma total_sleep_app (t1 t2 : list io) :
  total_sleep (t1 ++ t2) = total_sleep t1 + total_sleep t2.
Proof.
  induction t1 as [|[text|ms] t1 IH]; simpl; [reflexivity | exact IH|].
  rewrite IH. lia.
Qed.

Lemma navigate_cost (moves : Z) :
  len (sent (navigate moves)) = Z.abs moves /\
  Z.of_N (total_sleep (navigate moves)) = (50 * Z.abs moves)%Z.
Proof.
  unfold navigate, len.
  destruct (moves >? 0)%Z eqn:Hpos; [|destruct (moves <? 0)%Z eqn:Hneg].
  - destruct (length_press DOWN (Z.to_nat moves)) as [-> ->].
    apply Z.gtb_lt in Hpos. split; lia.
  - destruct (length_press UP (Z.to_nat (Z.abs moves))) as [-> ->].
    apply Z.ltb_lt in Hneg. split; lia.
  - rewrite Z.gtb_ltb in Hpos. apply Z.ltb_ge in Hpos. apply Z.ltb_ge in Hneg.
    simpl. split; lia.
Qed.

(** X5: choosing option [choice] of a question whose selected index is a
    position in its options costs as many arrow keys as the distance from
    the selected option, and one Enter: no more keys than there are options;
    and it sleeps 50 ms per arrow key and 100 ms before Enter. *)
Theorem option_target_cost (q : DetectedQuestion) (choice : Z) (text : option pystr) :
  truthy_opt text = false ->
  (0 <= choice - 1 < len (options q))%Z ->
  (0 <= selected_index q < len (options q))%Z ->
  let trace := snd (answer_question q (Some choice) text) in
  len (sent trace) = (Z.abs (choice - 1 - selected_index q) + 1)%Z /\
  (len (sent trace) <= len (options q))%Z /\
  Z.of_N (total_sleep trace) = (50 * Z.abs (choice - 1 - selected_index q) + 100)%Z.
Proof.
  intros Htext Hrange Hsel trace. subst trace.
  rewrite (answer_question_choice q choice text Htext).
  destruct ((choice - 1 <? 0) || (choice - 1 >=? len (options q)))%Z eqn:Hout; [lia|].
  destruct (in_range_lookup q (choice - 1) Hrange) as [o Ho].
  cbv zeta. rewrite Ho. cbn [snd].
  destruct (navigate_cost (choice - 1 - selected_index q)) as [Hkeys Hsleep].
  assert (Hlen : len (sent (navigate (choice - 1 - selected_index q)
                            ++ [Sleep 100; SendText ENTER]))
                 = (Z.abs (choice - 1 - selected_index q) + 1)%Z).
  { rewrite sent_app. cbn [sent]. rewrite len_snoc. lia. }
  split; [exact Hlen|]. split; [lia|].
  rewrite total_sleep_app. cbn [total_sleep]. lia.
Qed.

Lemma option_target_cost_witness :
  truthy_opt None = false /\
  len (sent (snd (answer_question example_question (Some 3%Z) None))) = 3%Z /\
  Z.of_N (total_sleep (snd (answer_question example_question (Some 3%Z) None))) = 200%Z.
Proof.
  split; [reflexivity|].
  destruct (option_target_cost example_question 3 None) as (H1 & _ & H3).
  - reflexivity.
  - vm_compute. split; [discriminate | reflexivity].
  - vm_compute. split; [discriminate | reflexivity].
  - split; [exact H1 | exact H3].
Defined.

(** ** The watch loop, over a whole run *)

Lemma for_each_preserves {A S : Type} (P : S -> Prop) (body : A -> S -> S * bool)
    (l : list A) :
  (forall x st, In x l -> P st -> P (fst (body x st))) ->
  forall st, P st -> P (fst (for_each body l st)).
Proof.
  induction l as [|x l IH]; intros Hbody st Hst; simpl; [exact Hst|].
  pose proof (Hbody x st (or_introl eq_refl) Hst) as Hx.
  destruct (body x st) as [st' [|]]; simpl in *; [exact Hx|].
  apply IH; [|exact Hx]. intros y st0 Hy. apply Hbody. now right.
Qed.

(** A loop whose body changes the state only when it returns. *)
Lemma for_each_returns {A S : Type} (Q : S -> S -> Prop) (body : A -> S -> S * bool) :
  (forall x st, if snd (body x st) then Q st (fst (body x st)) else fst (body x st) = st) ->
  forall l st,
    if snd (for_each body l st) then Q st (fst (for_each body l st))
    else fst (for_each body l st) = st.
Proof.
  intros Hbody. induction l as [|x l IH]; intros st; simpl; [reflexivity|].
  specialize (Hbody x st). destruct (body x st) as [st' [|]]; simpl in *; [exact Hbody|].
  subst st'. apply IH.
Qed.

Lemma for_each_continues {A S : Type} (body : A -> S -> S * bool) (l : list A) :
  (forall x st, snd (body x st) = false) ->
  forall st, snd (for_each body l st) = false.
Proof.
  intros Hbody. induction l as [|x l IH]; intros st; simpl; [reflexivity|].
  specialize (Hbody x st). destruct (body x st) as [st' r]. simpl in Hbody. subst r.
  apply IH.
Qed.

(** What one session can do to the state of the loop. *)
Lemma watch_session_cases (once : bool) (cur : pystr) (s : Session) (st : watch_state) :
  watch_session once cur s st = (st, false) \/
  exists screen_text q,
    session_id s <> cur /\
    get_screen_text s = Some screen_text /\
    parse_multiple_choice (strip_ansi screen_text) = Some q /\
    (session_id s ++ U ":" ++ question q ∉ seen_questions st) /\
    watch_session once cur s st =
      ({| seen_questions := {[session_id s ++ U ":" ++ question q]} ∪ seen_questions st;
          printed := printed st ++ [{| ev_session_id := session_id s; ev_question := q |}] |},
       once).
Proof.
  unfold watch_session. case_bool_decide as Hid; [now left|].
  destruct (get_screen_text s) as [screen_text|]; [|now left].
  destruct (parse_multiple_choice (strip_ansi screen_text)) as [q|] eqn:Hparse;
    [|now left].
  cbv zeta. case_bool_decide as Hseen; [now left|].
  right. exists screen_text, q.
  split; [exact Hid|]. split; [reflexivity|]. split; [exact Hparse|].
  split; [exact Hseen | reflexivity].
Qed.

(** X6: over a whole run of the watch loop, no two printed events have the
    same key (session id, colon, question text), and the keys remembered are
    exactly those of the printed events. *)
Theorem watch_never_repeats (env : pystr) (once : bool) (ticks : list App) :
  let st := fst (watch_for_questions env once ticks) in
  NoDup (map event_key (printed st)) /\
  forall key, key ∈ seen_questions st <-> key ∈ map event_key (printed st).
Proof.
  cbv zeta. unfold watch_for_questions.
  set (P := fun st : watch_state =>
              NoDup (map event_key (printed st)) /\
              forall key, key ∈ seen_questions st
                          <-> key ∈ map event_key (printed st)).
  apply (for_each_preserves P).
  - intros app st _ Hst. rewrite watch_tick_flat.
    revert st Hst. apply (for_each_preserves P).
    intros s st _ [Hnodup Hseen].
    destruct (watch_session_cases once (own_session_id env) s st)
      as [->|(screen_text & q & _ & _ & _ & Hfresh & ->)]; [now split|].
    unfold P. cbn [fst seen_questions printed]. rewrite map_app. cbn [map].
    change (event_key {| ev_session_id := session_id s; ev_question := q |})
      with (session_id s ++ U ":" ++ question q).
    split.
    + apply NoDup_app. split; [exact Hnodup|]. split; [|apply NoDup_singleton].
      intros key Hkey Hnew. apply list_elem_of_singleton in Hnew. subst key.
      apply Hfresh. now apply Hseen.
    + intros key. rewrite elem_of_union, elem_of_singleton, elem_of_app,
        list_elem_of_singleton, Hseen. tauto.
  - simpl. split; [constructor|]. intros key. set_solver.
Qed.

(** X7: with [--once] the loop returns at the first event it prints, so a
    run prints one event if it has returned and none if it is still
    polling; without it the loop never returns. *)
Theorem watch_once_stops (env : pystr) (ticks : list App) :
  (if snd (watch_for_questions env true ticks)
   then exists ev, printed (fst (watch_for_questions env true ticks)) = [ev]
   else printed (fst (watch_for_questions env true ticks)) = []) /\
  snd (watch_for_questions env false ticks) = false.
Proof.
  split.
  - unfold watch_for_questions.
    set (Q := fun st st' : watch_state => exists ev, printed st' = printed st ++ [ev]).
    assert (Htick : forall app st,
              if snd (watch_tick true (own_session_id env) app st)
              then Q st (fst (watch_tick true (own_session_id env) app st))
              else fst (watch_tick true (own_session_id env) app st) = st).
    { intros app st. rewrite watch_tick_flat. revert st.
      apply (for_each_returns Q). intros s st.
      destruct (watch_session_cases true (own_session_id env) s st)
        as [->|(screen_text & q & _ & _ & _ & _ & ->)]; [reflexivity|].
      unfold Q. cbn [fst snd printed]. eauto. }
    pose proof (for_each_returns Q _ Htick ticks) as Hrun.
    match goal with |- context [for_each _ ticks ?st0] => specialize (Hrun st0) end.
    destruct (snd (for_each _ ticks _)); [exact Hrun | now rewrite Hrun].
  - unfold watch_for_questions. apply for_each_continues.
    intros app st. rewrite watch_tick_flat. apply for_each_continues.
    clear st. intros s st.
    now destruct (watch_session_cases false (own_session_id env) s st)
      as [->|(screen_text & q & _ & _ & _ & _ & ->)].
Qed.

(** X8: every event printed by the watch loop comes from a session, other
    than the caller's own, of one of the app states the loop has seen, and
    carries the question parsed from the sanitized screen of that session. *)
Theorem watch_events_come_from_screens (env : pystr) (once : bool)
    (ticks : list App) (ev : event) :
  In ev (printed (fst (watch_for_questions env once ticks))) ->
  ev_session_id ev <> own_session_id env /\
  exists app s screen_text,
    In app ticks /\ In s (all_sessions app) /\
    session_id s = ev_session_id ev /\
    get_screen_text s = Some screen_text /\
    parse_multiple_choice (strip_ansi screen_text) = Some (ev_question ev).
Proof.
  set (good := fun ev : event =>
    ev_session_id ev <> own_session_id env /\
    exists app s screen_text,
      In app ticks /\ In s (all_sessions app) /\
      session_id s = ev_session_id ev /\
      get_screen_text s = Some screen_text /\
      parse_multiple_choice (strip_ansi screen_text) = Some (ev_question ev)).
  revert ev. change (forall ev,
    In ev (printed (fst (watch_for_questions env once ticks))) -> good ev).
  unfold watch_for_questions.
  set (P := fun st : watch_state => forall ev, In ev (printed st) -> good ev).
  apply (for_each_preserves P).
  - intros app st Happ Hst. rewrite watch_tick_flat.
    revert st Hst. apply (for_each_preserves P).
    intros s st Hs Hst.
    destruct (watch_session_cases once (own_session_id env) s st)
      as [->|(screen_text & q & Hid & Htext & Hparse & _ & ->)]; [exact Hst|].
    unfold P. cbn [fst printed]. intros ev Hev. apply in_app_or in Hev as [Hev|[<-|[]]];
      [now apply Hst|].
    split; [exact Hid|]. exists app, s, screen_text. now repeat split.
  - intros ev [].
Qed.

Lemma watch_events_come_from_screens_witness :
  ev_session_id {| ev_session_id := U "w0t1p0"; ev_question := example_question |}
    <> own_session_id EXAMPLE_ENV.
Proof.
  apply (watch_events_come_from_screens EXAMPLE_ENV false
           [one_tab [unreadable_session; example_session]]).
  vm_compute. now left.
Defined.

(** X9: the loop never takes back what it has printed or remembered: what
    a run has printed is the beginning of what any longer run prints. *)
Theorem watch_output_grows (env : pystr) (once : bool) (ticks more : list App) :
  printed (fst (watch_for_questions env once ticks))
    `prefix_of` printed (fst (watch_for_questions env once (ticks ++ more))) /\
  seen_questions (fst (watch_for_questions env once ticks))
    ⊆ seen_questions (fst (watch_for_questions env once (ticks ++ more))).
Proof.
  unfold watch_for_questions. rewrite for_each_app.
  destruct (for_each _ ticks _) as [st [|]]; [now split|]. cbn [fst].
  set (P := fun st' : watch_state =>
              printed st `prefix_of` printed st' /\
              seen_questions st ⊆ seen_questions st').
  apply (for_each_preserves P); [|now split].
  intros app st1 _ Hst1. rewrite watch_tick_flat. revert st1 Hst1.
  apply (for_each_preserves P). intros s st1 _ [Hprinted Hseen].
  destruct (watch_session_cases once (own_session_id env) s st1)
    as [->|(screen_text & q & _ & _ & _ & _ & ->)]; [now split|].
  unfold P. cbn [fst printed seen_questions]. split.
  - now apply prefix_app_r.
  - set_solver.
Qed.

(** ** Detecting, answering and listing *)

(** X10: detecting and answering agree on every state of the app: the
    answer fails with [no_claude_session] or [no_question], or raises,
    exactly when the detection reports no session, reports no question, or
    raises; and when a question is detected the answer is the one computed
    from that question. What a failed detection shows of the screen is the
    beginning of the sanitized text, at most 2000 characters. *)
Theorem detect_and_answer_agree (env : pystr) (app : App) (target : option pystr)
    (choice : option Z) (text : option pystr) :
  match detect_question env app target with
  | None => send_answer env app choice text target = (None, [])
  | Some detect_no_claude_session =>
    send_answer env app choice text target = (Some no_claude_session, [])
  | Some (detect_not_found id raw_screen) =>
    send_answer env app choice text target = (Some no_question, []) /\
    (List.length raw_screen <= 2000)%nat /\
    exists s screen_text,
      target_session env app target = Some s /\ session_id s = id /\
      get_screen_text s = Some screen_text /\
      raw_screen `prefix_of` strip_ansi screen_text
  | Some (detect_found id q) =>
    send_answer env app choice text target = answer_question q choice text /\
    exists s screen_text,
      target_session env app target = Some s /\ session_id s = id /\
      get_screen_text s = Some screen_text /\
      parse_multiple_choice (strip_ansi screen_text) = Some q
  end.
Proof.
  unfold detect_question, send_answer.
  destruct (target_session env app target) as [s|]; [|reflexivity].
  destruct (get_screen_text s) as [screen_text|] eqn:Htext; [|reflexivity].
  cbv zeta.
  destruct (parse_multiple_choice (strip_ansi screen_text)) as [q|] eqn:Hparse.
  - split; [reflexivity|]. exists s, screen_text.
    split; [reflexivity|]. split; [reflexivity|]. split; [exact Htext | exact Hparse].
  - split; [reflexivity|]. split; [rewrite length_take; lia|].
    exists s, screen_text.
    split; [reflexivity|]. split; [reflexivity|]. split; [exact Htext|].
    apply prefix_take.
Qed.

Lemma map_flat_map {A B C : Type} (f : B -> C) (g : A -> list B) (l : list A) :
  map f (flat_map g l) = flat_map (fun x => map f (g x)) l.
Proof.
  induction l as [|x l IH]; simpl; [reflexivity|]. now rewrite map_app, IH.
Qed.

Lemma flat_map_ext' {A B : Type} (f g : A -> list B) (l : list A) :
  (forall x, f x = g x) -> flat_map f l = flat_map g l.
Proof.
  intros Hfg. induction l as [|x l IH]; simpl; [reflexivity|]. now rewrite Hfg, IH.
Qed.

Lemma entry_id_list_session (cur : pystr) (s : Session) :
  entry_id (list_session cur s) = session_id s.
Proof. unfold list_session. now destruct (get_screen_text s). Qed.

(** X11: the listing has one element for every session of the app, in
    enumeration order, the caller's own session and the sessions that cannot
    be read included. *)
Theorem list_sessions_lists_all (env : pystr) (app : App) :
  map entry_id (list_sessions env app) = map session_id (all_sessions app) /\
  List.length (list_sessions env app) = List.length (all_sessions app).
Proof.
  assert (Hids : map entry_id (list_sessions env app)
                 = map session_id (all_sessions app)).
  { unfold list_sessions, all_sessions. cbv zeta. rewrite !map_flat_map.
    apply flat_map_ext'. intros w. rewrite !map_flat_map.
    apply flat_map_ext'. intros t. rewrite map_map.
    apply map_ext. intros s. apply entry_id_list_session. }
  split; [exact Hids|].
  rewrite <- (length_map entry_id), Hids. apply length_map.
Qed.

(** ** Stripping white space *)

Lemma lstrip_head (s : pystr) (c : N) :
  head (lstrip s) = Some c -> isspace c = false.
Proof.
  induction s as [|x s IH]; simpl; [discriminate|].
  destruct (isspace x) eqn:Hx; [exact IH|]. now intros [= <-].
Qed.

Lemma lstrip_keeps (s : pystr) :
  (forall c, head s = Some c -> isspace c = false) -> lstrip s = s.
Proof.
  destruct s as [|x s]; [reflexivity|]. intros Hx. simpl.
  now rewrite (Hx x eq_refl).
Qed.

Lemma lstrip_snoc (u : pystr) (c : N) :
  isspace c = false -> lstrip (u ++ [c]) = lstrip u ++ [c].
Proof.
  intros Hc. induction u as [|x u IH]; simpl; [now rewrite Hc|].
  now destruct (isspace x).
Qed.

Lemma last_rev (s : pystr) : last (rev s) = head s.
Proof. destruct s as [|x s]; [reflexivity|]. simpl. apply last_snoc. Qed.

Lemma head_rev (s : pystr) : head (rev s) = last s.
Proof. rewrite <- (rev_involutive s) at 2. now rewrite last_rev. Qed.

Lemma rstrip_last (s : pystr) (c : N) :
  last (rstrip s) = Some c -> isspace c = false.
Proof. unfold rstrip. rewrite last_rev. apply lstrip_head. Qed.

Lemma rstrip_keeps (s : pystr) :
  (forall c, last s = Some c -> isspace c = false) -> rstrip s = s.
Proof.
  intros Hs. unfold rstrip. rewrite lstrip_keeps; [apply rev_involutive|].
  intros c. rewrite head_rev. apply Hs.
Qed.

Lemma rstrip_cons (c : N) (t : pystr) :
  isspace c = false -> rstrip (c :: t) = c :: rstrip t.
Proof.
  intros Hc. unfold rstrip. simpl. rewrite lstrip_snoc by exact Hc.
  rewrite rev_app_distr. reflexivity.
Qed.

Lemma strip_trimmed (s : pystr) : trimmed (strip s).
Proof.
  unfold trimmed, strip. split; [|apply rstrip_last].
  destruct (lstrip s) as [|x t] eqn:Hl; [intros c; discriminate|].
  assert (Hx : isspace x = false) by (apply (lstrip_head s); now rewrite Hl).
  rewrite rstrip_cons by exact Hx. now intros c [= <-].
Qed.

Lemma trimmed_strip (s : pystr) : trimmed s -> strip s = s.
Proof.
  intros [Hhead Hlast]. unfold strip.
  now rewrite (lstrip_keeps s Hhead), (rstrip_keeps s Hlast).
Qed.

Lemma stripped_lines_spec (lines : list pystr) :
  Forall (fun l => truthy l = true /\ trimmed l) (stripped_lines lines).
Proof.
  induction lines as [|l lines IH]; simpl; [constructor|].
  destruct (truthy (strip l)) eqn:Hl; [|exact IH].
  constructor; [|exact IH]. split; [exact Hl | apply strip_trimmed].
Qed.

(** X12: the preview of a listed session is never empty, has at most 80
    characters and does not begin with white space: it is the beginning of
    the last non-blank line of the sanitized screen, stripped, or "(empty)"
    when every line is blank. *)
Theorem list_session_preview (cur : pystr) (s : Session) (id : pystr)
    (is_current has_question : bool) (question_text : option pystr) (preview : pystr) :
  list_session cur s = entry id is_current has_question question_text preview ->
  (0 < List.length preview <= 80)%nat /\
  (forall c, head preview = Some c -> isspace c = false) /\
  exists screen_text,
    get_screen_text s = Some screen_text /\
    (preview = EMPTY_PREVIEW \/
     exists line,
       In line (split LF (strip_ansi screen_text)) /\ preview = take 80 (strip line)).
Proof.
  unfold list_session. destruct (get_screen_text s) as [screen_text|]; [|discriminate].
  cbv zeta. intros [= _ _ _ _ <-].
  pose proof (stripped_lines_spec (split LF (strip_ansi screen_text))) as Hall.
  assert (Hfrom : forall l, In l (stripped_lines (split LF (strip_ansi screen_text))) ->
                    exists line, In line (split LF (strip_ansi screen_text))
                                 /\ l = strip line).
  { generalize (split LF (strip_ansi screen_text)). intros lines.
    induction lines as [|l0 lines IH]; simpl; [intros l []|].
    destruct (truthy (strip l0)).
    - intros l [<-|Hin]; [exists l0; now split; [left|]|].
      destruct (IH l Hin) as (line & Hline & ->). exists line. split; [now right|reflexivity].
    - intros l Hin. destruct (IH l Hin) as (line & Hline & ->).
      exists line. split; [now right | reflexivity]. }
  destruct (last (stripped_lines (split LF (strip_ansi screen_text)))) as [l|] eqn:Hlast.
  - assert (Hin : In l (stripped_lines (split LF (strip_ansi screen_text)))).
    { apply list_elem_of_In. apply last_Some in Hlast as [u ->].
      apply elem_of_app. right. now apply list_elem_of_singleton. }
    rewrite Forall_forall in Hall.
    destruct (Hall l (proj2 (list_elem_of_In _ _) Hin)) as [Htruthy [Hhead _]].
    destruct l as [|x l]; [discriminate|]. split; [|split].
    + rewrite length_take. cbn [List.length]. lia.
    + intros c. simpl. intros [= <-]. now apply Hhead.
    + exists screen_text. split; [reflexivity|]. right.
      destruct (Hfrom _ Hin) as (line & Hline & ->). now exists line.
  - split; [vm_compute; lia|]. split.
    + intros c. vm_compute. now intros [= <-].
    + exists screen_text. split; [reflexivity | now left].
Qed.

Lemma list_session_preview_witness :
  list_session (own_session_id EXAMPLE_ENV) example_session
    = entry (U "w0t1p0") false true (Some (U "What should I work on?"))
        (U "Enter to select · Tab/Arrow keys to navigate · Esc to cancel") /\
  (0 < List.length (U "Enter to select · Tab/Arrow keys to navigate · Esc to cancel")
     <= 80)%nat.
Proof.
  assert (H : list_session (own_session_id EXAMPLE_ENV) example_session
    = entry (U "w0t1p0") false true (Some (U "What should I work on?"))
        (U "Enter to select · Tab/Arrow keys to navigate · Esc to cancel")).
  { vm_compute. reflexivity. }
  split; [exact H|].
  exact (proj1 (list_session_preview _ _ _ _ _ _ _ H)).
Defined.

(** ** Lines *)

Lemma split_not_nil (sep : N) (s : pystr) : split sep s <> [].
Proof.
  destruct s as [|c s]; simpl; [discriminate|].
  destruct (c =? sep); [discriminate|]. now destruct (split sep s).
Qed.

Lemma join_cons (sep : N) (l : pystr) (ls : list pystr) :
  ls <> [] -> join sep (l :: ls) = l ++ sep :: join sep ls.
Proof. destruct ls; [congruence | reflexivity]. Qed.

Lemma join_split (sep : N) (s : pystr) : join sep (split sep s) = s.
Proof.
  induction s as [|c s IH]; [reflexivity|]. simpl.
  destruct (c =? sep) eqn:Hc.
  - apply N.eqb_eq in Hc. subst c.
    rewrite join_cons by apply split_not_nil. simpl. now rewrite IH.
  - pose proof (split_not_nil sep s) as Hne.
    destruct (split sep s) as [|l ls]; [congruence|].
    destruct ls as [|l' ls]; simpl in *; now rewrite <- IH.
Qed.

Lemma split_line (sep : N) (s : pystr) : has sep s = false -> split sep s = [s].
Proof.
  induction s as [|c s IH]; [reflexivity|]. unfold has. cbn [existsb].
  intros H. apply orb_false_iff in H as [Hc Hs]. simpl.
  rewrite N.eqb_sym, Hc. now rewrite (IH Hs).
Qed.

Lemma split_app (sep : N) (a b : pystr) :
  has sep a = false -> split sep (a ++ sep :: b) = a :: split sep b.
Proof.
  induction a as [|c a IH]; simpl.
  - now rewrite N.eqb_refl.
  - unfold has. cbn [existsb]. intros H. apply orb_false_iff in H as [Hc Ha].
    rewrite N.eqb_sym, Hc. now rewrite (IH Ha).
Qed.

Lemma split_join (sep : N) (rows : list pystr) :
  rows <> [] -> Forall (fun r => has sep r = false) rows ->
  split sep (join sep rows) = rows.
Proof.
  induction rows as [|r rows IH]; [congruence|]. intros _ Hall.
  apply Forall_cons in Hall as [Hr Hrows].
  destruct rows as [|r' rows]; [now apply split_line|].
  rewrite join_cons by discriminate. rewrite split_app by exact Hr.
  now rewrite IH.
Qed.

Lemma split_no_sep (sep : N) (s : pystr) :
  Forall (fun r => has sep r = false) (split sep s).
Proof.
  induction s as [|c s IH]; simpl; [now repeat constructor|].
  destruct (c =? sep) eqn:Hc; [now constructor|].
  destruct (split sep s) as [|l ls]; [now repeat constructor; unfold has; simpl; rewrite N.eqb_sym, Hc|].
  apply Forall_cons in IH as [Hl Hls]. constructor; [|exact Hls].
  unfold has in *. cbn [existsb]. now rewrite N.eqb_sym, Hc.
Qed.

(** X13: the text the parser splits is the screen row by row: splitting
    the text of a session at line feeds gives back its rows, when there is
    at least one row and no row has a line feed in it; joining the lines of
    any text gives back the text; a screen without rows reads as one empty
    line. *)
Theorem screen_rows_round_trip (s : Session) (rows : list pystr) :
  screen s = Some rows ->
  rows <> [] ->
  Forall (fun r => has LF r = false) rows ->
  (exists screen_text,
     get_screen_text s = Some screen_text /\ split LF screen_text = rows) /\
  (forall text, join LF (split LF text) = text) /\
  split LF (join LF []) = [[]].
Proof.
  intros Hscreen Hne Hrows. split; [|split; [apply join_split | reflexivity]].
  exists (join LF rows). unfold get_screen_text. rewrite Hscreen.
  split; [reflexivity | now apply split_join].
Qed.

Lemma screen_rows_round_trip_witness :
  exists screen_text,
    get_screen_text example_session = Some screen_text /\
    split LF screen_text = example_rows.
Proof.
  apply (screen_rows_round_trip example_session example_rows).
  - reflexivity.
  - discriminate.
  - vm_compute. repeat constructor.
Defined.

(** A match inside [b] is not changed by a character that follows [b] and
    that no part of the pattern accepts. *)
Lemma ansi_match_app_stop (x : N) (pos : nat) (c0 : N) (b r : pystr) :
  is_fe x = false -> (LBRACKET =? x) = false -> is_param x = false ->
  is_inter x = false -> is_final x = false ->
  ansi_match pos ((c0 :: b) ++ x :: r) =
    match ansi_match pos (c0 :: b) with
    | Some (e, rest) => Some (e, rest ++ x :: r)
    | None => None
    end.
Proof.
  intros Hfe Hbr Hp Hi Hf.
  unfold ansi_match. destruct b as [|c b]; cbn [app].
  - destruct (ESC =? c0); [|reflexivity]. now rewrite Hfe, Hbr.
  - destruct (ESC =? c0); [|reflexivity].
    destruct (is_fe c); [reflexivity|].
    destruct (LBRACKET =? c); [|reflexivity].
    rewrite (skip_app_stop is_param x r b) by exact Hp.
    destruct (skip is_param (S (S pos)) b) as [p1 r1]. cbn [fst snd].
    rewrite (skip_app_stop is_inter x r r1) by exact Hi.
    destruct (skip is_inter p1 r1) as [p2 [|f r3]]; cbn [fst snd app];
      [now rewrite Hf|].
    now destruct (is_final f).
Qed.

Lemma strip_ansi_app_lf (n : nat) :
  forall b r : pystr, (List.length b <= n)%nat ->
    strip_ansi (b ++ LF :: r) = strip_ansi b ++ LF :: strip_ansi r.
Proof.
  induction n as [|n IH]; intros [|c b] r Hlen; simpl in Hlen; try lia.
  - cbn [app]. rewrite strip_ansi_step, ansi_match_head by discriminate. reflexivity.
  - cbn [app]. rewrite strip_ansi_step, ansi_match_head by discriminate. reflexivity.
  - rewrite (strip_ansi_step c b).
    change ((c :: b) ++ LF :: r) with (c :: (b ++ LF :: r)).
    rewrite strip_ansi_step.
    change (c :: (b ++ LF :: r)) with ((c :: b) ++ LF :: r).
    rewrite (ansi_match_app_stop LF) by reflexivity.
    destruct (ansi_match 0 (c :: b)) as [[e rest]|] eqn:Hm.
    + apply ansi_match_shorter in Hm. simpl in Hm. apply IH. lia.
    + rewrite IH by lia. reflexivity.
Qed.

Lemma strip_ansi_join (rows : list pystr) :
  strip_ansi (join LF rows) = join LF (map strip_ansi rows).
Proof.
  induction rows as [|r rows IH]; [reflexivity|].
  destruct rows as [|r' rows]; [reflexivity|].
  rewrite join_cons by discriminate.
  rewrite (strip_ansi_app_lf (List.length r)) by lia.
  rewrite IH. reflexivity.
Qed.

Lemma sublist_has (c : N) (s t : pystr) :
  sublist s t -> has c t = false -> has c s = false.
Proof.
  intros Hsub Ht. destruct (has c s) eqn:Hs; [|reflexivity].
  apply has_true in Hs. apply list_elem_of_In in Hs.
  apply (fun H => elem_of_sublist _ _ _ H Hsub) in Hs. apply list_elem_of_In in Hs.
  apply has_true in Hs. congruence.
Qed.

(** X14: [strip_ansi] works line by line: no match of its pattern reaches
    across a line feed, so the lines of the sanitized text are the
    sanitized lines of the text, as many as before. *)
Theorem strip_ansi_line_by_line (text : pystr) (rows : list pystr) :
  split LF (strip_ansi text) = map strip_ansi (split LF text) /\
  strip_ansi (join LF rows) = join LF (map strip_ansi rows).
Proof.
  split; [|apply strip_ansi_join].
  rewrite <- (join_split LF text) at 1. rewrite strip_ansi_join.
  apply split_join.
  - pose proof (split_not_nil LF text). now destruct (split LF text).
  - apply Forall_map. eapply Forall_impl; [apply split_no_sep|].
    intros r Hr. simpl. apply (sublist_has LF _ r); [|exact Hr].
    now apply (strip_ansi_kept (List.length r)).
Qed.

(** ** What a parsed question looks like *)

Lemma marks_agree_snoc_true (marks : list bool) :
  marks_agree (marks ++ [true]) (len marks).
Proof.
  unfold marks_agree, len. split.
  - intros j Hj. apply lookup_lt_Some in Hj. rewrite length_app in Hj. simpl in Hj. lia.
  - left. split; [lia|]. rewrite Nat2Z.id.
    rewrite lookup_app_r by lia. now rewrite Nat.sub_diag.
Qed.

Lemma marks_agree_snoc_false (marks : list bool) (sel : Z) :
  marks_agree marks sel -> marks_agree (marks ++ [false]) sel.
Proof.
  unfold marks_agree. intros [Hafter Hat]. split.
  - intros j Hj. destruct (decide (j < List.length marks)%nat) as [Hlt|Hge].
    + rewrite lookup_app_l in Hj by exact Hlt. now apply Hafter.
    + rewrite lookup_app_r in Hj by lia.
      destruct (j - List.length marks)%nat as [|k]; simpl in Hj; [discriminate|].
      now rewrite lookup_nil in Hj.
  - destruct Hat as [[Hnn Hsel]|[-> Hnone]].
    + left. split; [exact Hnn|]. rewrite lookup_app_l; [exact Hsel|].
      now apply lookup_lt_Some in Hsel.
    + right. split; [reflexivity|]. apply Forall_app. split; [exact Hnone|].
      now repeat constructor.
Qed.

Lemma flush_marks_described (st : scan_state) (cur : QuestionOption) (d : pystr) :
  st_current_option st = Some cur ->
  map is_selected
    (flush {| st_options := st_options st;
              st_selected_index := st_selected_index st;
              st_current_option := Some (with_description cur d) |})
    = map is_selected (flush st).
Proof.
  intros Hcur. unfold flush. rewrite Hcur. cbn [st_options st_current_option].
  now rewrite !map_app.
Qed.

Lemma scan_line_marks (line : pystr) (st : scan_state) :
  marks_agree (map is_selected (flush st)) (st_selected_index st) ->
  marks_agree (map is_selected (flush (scan_line line st)))
    (st_selected_index (scan_line line st)).
Proof.
  intros Hinv. unfold scan_line.
  destruct (Re.match_ option_re line) as [m|].
  - unfold flush at 1. cbn [st_options st_selected_index st_current_option].
    rewrite map_app. cbn [map is_selected].
    destruct (has SELECTOR (Re.group 1 m) || has GT (Re.group 1 m)).
    + replace (len (flush st)) with (len (map is_selected (flush st)))
        by (unfold len; now rewrite length_map).
      now apply marks_agree_snoc_true.
    + now apply marks_agree_snoc_false.
  - destruct (st_current_option st) as [cur|] eqn:Hcur; [|exact Hinv].
    destruct (truthy (strip line)); [|exact Hinv].
    rewrite (flush_marks_described st cur _ Hcur). exact Hinv.
Qed.

Lemma scan_options_preserves (P : scan_state -> Prop) (lines : list pystr)
    (idxs : list nat) :
  (forall line st, P st -> P (scan_line line st)) ->
  forall st, P st -> P (scan_options lines idxs st).
Proof.
  intros Hline. induction idxs as [|i rest IH]; intros st Hst; simpl; [exact Hst|].
  destruct (contains ENTER_TO_SELECT (nth i lines []) || contains TAB_ARROW (nth i lines []));
    [exact Hst|].
  apply IH. now apply Hline.
Qed.

(** What [parse_multiple_choice] returns, in terms of its three loops. *)
Lemma parse_multiple_choice_some (text : pystr) (q : DetectedQuestion) :
  parse_multiple_choice text = Some q ->
  exists header_idx question_idx st,
    find_header 0 (split LF text) = Some (header_idx, header q) /\
    find_question (split LF text)
      (range (header_idx + 1)
         (Nat.min (header_idx + 10) (List.length (split LF text))))
      = Some (question_idx, question q) /\
    st = scan_options (split LF text)
           (range (question_idx + 1) (List.length (split LF text)))
           {| st_options := []; st_selected_index := 0; st_current_option := None |} /\
    options q = flush st /\ options q <> [] /\
    selected_index q = st_selected_index st /\
    has_text_option q = existsb is_text_input (options q).
Proof.
  unfold parse_multiple_choice. cbv zeta.
  destruct (find_header 0 (split LF text)) as [[header_idx header']|]; [|discriminate].
  destruct (find_question _ _) as [[question_idx question']|] eqn:Hq; [|discriminate].
  match goal with |- context [scan_options ?l ?r ?s] => set (st := scan_options l r s) end.
  destruct (flush st) as [|o os] eqn:Hflush; [discriminate|].
  intros [= <-]. exists header_idx, question_idx, st. cbn.
  split; [reflexivity|]. split; [exact Hq|]. split; [reflexivity|].
  split; [now rewrite Hflush|]. split; [discriminate|]. split; reflexivity.
Qed.

(** X15: when option lines carry the selection marker, the selected index
    is the position of the last one that does: the option at the selected
    index is marked as selected, and no option after it is. *)
Theorem selected_is_last_marked (text : pystr) (q : DetectedQuestion) :
  parse_multiple_choice text = Some q ->
  (forall j o, options q !! j = Some o -> is_selected o = true ->
     (Z.of_nat j <= selected_index q)%Z) /\
  ((exists o, In o (options q) /\ is_selected o = true) ->
   exists o, options q !! Z.to_nat (selected_index q) = Some o /\ is_selected o = true).
Proof.
  intros Hparse.
  destruct (parse_multiple_choice_some text q Hparse)
    as (header_idx & question_idx & st & _ & _ & Hst & Hopts & _ & Hsel & _).
  assert (Hinv : marks_agree (map is_selected (options q)) (selected_index q)).
  { rewrite Hopts, Hsel, Hst.
    apply (scan_options_preserves
             (fun st => marks_agree (map is_selected (flush st)) (st_selected_index st))).
    - apply scan_line_marks.
    - unfold flush. cbn [st_options st_current_option st_selected_index map].
      split; [intros j Hj; now rewrite lookup_nil in Hj|]. right.
      split; [reflexivity | constructor]. }
  destruct Hinv as [Hafter Hat]. split.
  - intros j o Ho Hmarked. apply Hafter. rewrite list_lookup_fmap, Ho. simpl.
    now rewrite Hmarked.
  - intros (o & Hin & Hmarked). destruct Hat as [[_ Hthere]|[_ Hnone]].
    + rewrite list_lookup_fmap in Hthere.
      destruct (options q !! Z.to_nat (selected_index q)) as [o'|]; [|discriminate].
      exists o'. split; [reflexivity|]. now injection Hthere.
    + rewrite Forall_forall in Hnone. specialize (Hnone (is_selected o)).
      rewrite Hmarked in Hnone. discriminate Hnone.
      apply list_elem_of_fmap. exists o. split; [now rewrite Hmarked|].
      now apply list_elem_of_In.
Qed.

Lemma selected_is_last_marked_witness :
  parse_multiple_choice example_screen = Some example_question /\
  exists o, options example_question !! Z.to_nat (selected_index example_question) = Some o
            /\ is_selected o = true.
Proof.
  assert (H : parse_multiple_choice example_screen = Some example_question)
    by (vm_compute; reflexivity).
  split; [exact H|].
  apply (selected_is_last_marked example_screen example_question H).
  eexists. split; [left; reflexivity | reflexivity].
Defined.

Lemma find_header_spec (lines : list pystr) (i idx : nat) (h : pystr) :
  find_header i lines = Some (idx, h) ->
  exists before line after,
    lines = before ++ line :: after /\ idx = (i + List.length before)%nat /\
    has CHECKBOX line || has CHECKED line = true /\
    trimmed h.
Proof.
  revert i. induction lines as [|line rest IH]; intros i; simpl; [discriminate|].
  assert (Hrest : find_header (S i) rest = Some (idx, h) ->
            exists before line0 after,
              line :: rest = before ++ line0 :: after /\
              idx = (i + List.length before)%nat /\
              has CHECKBOX line0 || has CHECKED line0 = true /\ trimmed h).
  { intros H. destruct (IH _ H) as (before & line0 & after & -> & -> & Hbox & Htrim).
    exists (line :: before), line0, after.
    split; [reflexivity|]. split; [simpl; lia|]. split; assumption. }
  destruct (has CHECKBOX line || has CHECKED line) eqn:Hbox; [|exact Hrest].
  destruct (Re.search header_re line) as [m|]; [|exact Hrest].
  intros [= <- <-]. exists [], line, rest.
  split; [reflexivity|]. split; [simpl; lia|]. split; [exact Hbox|].
  apply strip_trimmed.
Qed.

Lemma find_question_spec (lines : list pystr) (idxs : list nat) (i : nat) (line : pystr) :
  find_question lines idxs = Some (i, line) ->
  In i idxs /\ line = strip (nth i lines []) /\ truthy line = true /\
  Re.match_ option_start_re line = None /\
  startswith ENTER_TO_SELECT line = false.
Proof.
  induction idxs as [|j rest IH]; cbn [find_question]; [discriminate|]. cbv zeta.
  assert (Hrest : find_question lines rest = Some (i, line) ->
            (j = i \/ In i rest) /\ line = strip (nth i lines []) /\ truthy line = true /\
            Re.match_ option_start_re line = None /\
            startswith ENTER_TO_SELECT line = false).
  { intros H. destruct (IH H) as (Hin & Hrest). split; [now right | exact Hrest]. }
  destruct (truthy (strip (nth j lines []))) eqn:Htruthy; cbn [negb andb];
    [|exact Hrest].
  destruct (Re.match_ option_start_re (strip (nth j lines []))) eqn:Hopt;
    cbn [Re.matched]; [discriminate|].
  destruct (startswith ENTER_TO_SELECT (strip (nth j lines []))) eqn:Hfooter;
    cbn [negb]; [exact Hrest|].
  intros [= <- <-]. split; [now left|]. split; [reflexivity|].
  split; [exact Htruthy|]. split; [exact Hopt | exact Hfooter].
Qed.

Lemma trimmed_nil : trimmed [].
Proof. split; intros c; discriminate. Qed.

Lemma trimmed_glue (a b : pystr) :
  trimmed a -> truthy a = true -> trimmed b -> truthy b = true ->
  trimmed (a ++ U " " ++ b).
Proof.
  intros [Hhead _] Ha [_ Hlast] Hb. split; intros c.
  - destruct a as [|x a]; [discriminate|]. exact (Hhead c).
  - rewrite !last_app. destruct b as [|y b]; [discriminate|].
    destruct (last (y :: b)) as [z|] eqn:Hz; [exact (Hlast c)|].
    apply last_None in Hz. discriminate.
Qed.

Lemma scan_line_tidy (line : pystr) (st : scan_state) :
  Forall (fun o => tidy_option o /\
                   is_text_input o = contains TYPE_SOMETHING (lower (label o)))
    (flush st) ->
  Forall (fun o => tidy_option o /\
                   is_text_input o = contains TYPE_SOMETHING (lower (label o)))
    (flush (scan_line line st)).
Proof.
  intros Hinv. unfold scan_line.
  destruct (Re.match_ option_re line) as [m|].
  - unfold flush at 1. cbn [st_options st_current_option].
    apply Forall_app. split; [exact Hinv|]. constructor; [|constructor].
    split; [|reflexivity]. unfold tidy_option. cbn [label description number].
    split; [apply strip_trimmed|]. split; [apply trimmed_nil|].
    unfold int. lia.
  - destruct (st_current_option st) as [cur|] eqn:Hcur; [|exact Hinv].
    destruct (truthy (strip line)) eqn:Hline; [|exact Hinv].
    unfold flush in *. rewrite Hcur in Hinv. cbn [st_options st_current_option].
    apply Forall_app in Hinv as [Hopts Hlast]. apply Forall_app. split; [exact Hopts|].
    apply Forall_cons in Hlast as [[(Hlabel & Hdesc & Hnum) Htext] _].
    constructor; [|constructor]. split; [|exact Htext].
    unfold tidy_option, with_description. cbn [label description number].
    split; [exact Hlabel|]. split; [|exact Hnum].
    destruct (truthy (description cur)) eqn:Hd; [|apply strip_trimmed].
    apply trimmed_glue; try assumption. apply strip_trimmed.
Qed.

(** X16: in a question returned by the parser, the question text is not
    empty, has no white space around it, is not an option line and does not
    begin with "Enter to select"; the header, the labels and the
    descriptions have no white space around them, the numbers are not
    negative, an option is flagged as text input exactly when its label in
    lower case contains "type something", and the question has a text
    option exactly when one of its options is flagged. *)
Theorem parsed_texts_are_tidy (text : pystr) (q : DetectedQuestion) :
  parse_multiple_choice text = Some q ->
  truthy (question q) = true /\ trimmed (question q) /\
  Re.match_ option_start_re (question q) = None /\
  startswith ENTER_TO_SELECT (question q) = false /\
  trimmed (header q) /\
  Forall (fun o => tidy_option o /\
                   is_text_input o = contains TYPE_SOMETHING (lower (label o)))
    (options q) /\
  has_text_option q = existsb is_text_input (options q).
Proof.
  intros Hparse.
  destruct (parse_multiple_choice_some text q Hparse)
    as (header_idx & question_idx & st & Hh & Hq & Hst & Hopts & _ & _ & Htext).
  destruct (find_header_spec _ _ _ _ Hh) as (_ & _ & _ & _ & _ & _ & Hheader).
  destruct (find_question_spec _ _ _ _ Hq) as (_ & Hline & Htruthy & Hopt & Hfooter).
  split; [exact Htruthy|]. split; [rewrite Hline; apply strip_trimmed|].
  split; [exact Hopt|]. split; [exact Hfooter|]. split; [exact Hheader|].
  split; [|exact Htext]. rewrite Hopts, Hst.
  apply (scan_options_preserves
           (fun st => Forall (fun o => tidy_option o /\
                        is_text_input o = contains TYPE_SOMETHING (lower (label o)))
                        (flush st))).
  - apply scan_line_tidy.
  - constructor.
Qed.

Lemma parsed_texts_are_tidy_witness :
  parse_multiple_choice example_screen = Some example_question /\
  trimmed (question example_question).
Proof.
  assert (H : parse_multiple_choice example_screen = Some example_question)
    by (vm_compute; reflexivity).
  split; [exact H|].
  apply (parsed_texts_are_tidy example_screen example_question H).
Defined.

(** ** Where the prompt stands on the screen *)

Lemma split_app_sep (sep : N) (a b : pystr) :
  split sep (a ++ sep :: b) = split sep a ++ split sep b.
Proof.
  induction a as [|c a IH]; simpl.
  - now rewrite N.eqb_refl.
  - destruct (c =? sep); [now rewrite IH|]. rewrite IH.
    pose proof (split_not_nil sep a) as Hne.
    now destruct (split sep a).
Qed.

Lemma find_header_shift (k : nat) (lines : list pystr) (i : nat) :
  find_header (i + k) lines = shift_index k (find_header i lines).
Proof.
  revert i. induction lines as [|line rest IH]; intros i; simpl; [reflexivity|].
  destruct (has CHECKBOX line || has CHECKED line);
    [destruct (Re.search header_re line); [reflexivity|]|]; apply (IH (S i)).
Qed.

Lemma find_header_skip (above lines : list pystr) (i : nat) :
  Forall (fun l => has CHECKBOX l = false /\ has CHECKED l = false) above ->
  find_header i (above ++ lines) = find_header (i + List.length above) lines.
Proof.
  intros Habove. revert i. induction Habove as [|l above [Hbox Hchecked] _ IH];
    intros i; simpl.
  - now rewrite Nat.add_0_r.
  - rewrite Hbox, Hchecked. simpl. rewrite IH. f_equal. lia.
Qed.

Lemma nth_shift (above lines : list pystr) (i : nat) :
  nth (i + List.length above) (above ++ lines) [] = nth i lines [].
Proof. rewrite Nat.add_comm. apply app_nth2_plus. Qed.

Lemma find_question_shift (above lines : list pystr) (idxs : list nat) :
  find_question (above ++ lines) (map (fun i => (i + List.length above)%nat) idxs)
    = shift_index (List.length above) (find_question lines idxs).
Proof.
  induction idxs as [|i rest IH]; cbn [find_question map]; [reflexivity|]. cbv zeta.
  rewrite nth_shift.
  destruct (truthy (strip (nth i lines []))); cbn [negb andb]; [|exact IH].
  destruct (Re.match_ option_start_re (strip (nth i lines []))); cbn [Re.matched];
    [reflexivity|].
  destruct (startswith ENTER_TO_SELECT (strip (nth i lines []))); cbn [negb];
    [exact IH | reflexivity].
Qed.

Lemma scan_options_shift (above lines : list pystr) (idxs : list nat) (st : scan_state) :
  scan_options (above ++ lines) (map (fun i => (i + List.length above)%nat) idxs) st
    = scan_options lines idxs st.
Proof.
  revert st. induction idxs as [|i rest IH]; intros st; cbn [scan_options map];
    [reflexivity|]. cbv zeta.
  rewrite nth_shift.
  destruct (contains ENTER_TO_SELECT (nth i lines []) || contains TAB_ARROW (nth i lines []));
    [reflexivity | apply IH].
Qed.

Lemma range_shift (k a b : nat) :
  range (a + k) (b + k) = map (fun i => (i + k)%nat) (range a b).
Proof.
  unfold range. replace (b + k - (a + k))%nat with (b - a)%nat by lia.
  generalize (b - a)%nat as n. intros n. revert a.
  induction n as [|n IH]; intros a; simpl; [reflexivity|].
  f_equal. apply (IH (S a)).
Qed.

Lemma parse_multiple_choice_lines (text : pystr) :
  parse_multiple_choice text = parse_lines (split LF text).
Proof. reflexivity. Qed.

Lemma parse_lines_skip (above lines : list pystr) :
  Forall (fun l => has CHECKBOX l = false /\ has CHECKED l = false) above ->
  parse_lines (above ++ lines) = parse_lines lines.
Proof.
  intros Habove. unfold parse_lines.
  rewrite (find_header_skip above lines 0 Habove).
  rewrite (find_header_shift (List.length above) lines 0).
  destruct (find_header 0 lines) as [[header_idx header']|]; [|reflexivity].
  cbn [shift_index].
  replace (header_idx + List.length above + 1)%nat
    with (header_idx + 1 + List.length above)%nat by lia.
  replace (Nat.min (header_idx + List.length above + 10) (List.length (above ++ lines)))
    with (Nat.min (header_idx + 10) (List.length lines) + List.length above)%nat
    by (rewrite length_app; lia).
  rewrite range_shift, find_question_shift.
  destruct (find_question lines _) as [[question_idx question']|]; [|reflexivity].
  cbn [shift_index].
  replace (question_idx + List.length above + 1)%nat
    with (question_idx + 1 + List.length above)%nat by lia.
  replace (List.length (above ++ lines))
    with (List.length lines + List.length above)%nat by (rewrite length_app; lia).
  rewrite range_shift, scan_options_shift. reflexivity.
Qed.

(** X17: the parser does not depend on where the prompt stands: text above
    the prompt that has no checkbox in it changes nothing of the result. *)
Theorem text_above_is_ignored (above text : pystr) :
  has CHECKBOX above = false ->
  has CHECKED above = false ->
  parse_multiple_choice (above ++ LF :: text) = parse_multiple_choice text.
Proof.
  intros Hbox Hchecked. rewrite !parse_multiple_choice_lines, split_app_sep.
  apply parse_lines_skip. apply Forall_forall. intros l Hl.
  apply list_elem_of_In in Hl. split.
  - apply (sublist_has CHECKBOX l above); [|exact Hbox].
    clear -Hl. revert l Hl. induction above as [|c above IH]; intros l Hl; simpl in Hl.
    + destruct Hl as [<-|[]]. constructor.
    + destruct (c =? LF).
      * destruct Hl as [<-|Hl]; [apply sublist_nil_l | apply sublist_cons, IH, Hl].
      * destruct (split LF above) as [|l0 ls] eqn:Hs.
        -- destruct Hl as [<-|[]]. apply sublist_skip, sublist_nil_l.
        -- destruct Hl as [<-|Hl].
           ++ apply sublist_skip. apply IH. now left.
           ++ apply sublist_cons. apply IH. now right.
  - apply (sublist_has CHECKED l above); [|exact Hchecked].
    clear -Hl. revert l Hl. induction above as [|c above IH]; intros l Hl; simpl in Hl.
    + destruct Hl as [<-|[]]. constructor.
    + destruct (c =? LF).
      * destruct Hl as [<-|Hl]; [apply sublist_nil_l | apply sublist_cons, IH, Hl].
      * destruct (split LF above) as [|l0 ls] eqn:Hs.
        -- destruct Hl as [<-|[]]. apply sublist_skip, sublist_nil_l.
        -- destruct Hl as [<-|Hl].
           ++ apply sublist_skip. apply IH. now left.
           ++ apply sublist_cons. apply IH. now right.
Qed.

Lemma text_above_is_ignored_witness :
  has CHECKBOX (U "$ claude") = false /\
  has CHECKED (U "$ claude") = false /\
  parse_multiple_choice (U "$ claude" ++ LF :: example_screen) = Some example_question.
Proof.
  split; [reflexivity|]. split; [reflexivity|].
  rewrite (text_above_is_ignored (U "$ claude") example_screen); reflexivity.
Defined.

Lemma find_header_app (lines extra : list pystr) (i : nat) (r : nat * pystr) :
  find_header i lines = Some r -> find_header i (lines ++ extra) = Some r.
Proof.
  revert i. induction lines as [|line rest IH]; intros i; simpl; [discriminate|].
  destruct (has CHECKBOX line || has CHECKED line);
    [destruct (Re.search header_re line); [trivial|]|]; apply IH.
Qed.

Lemma find_question_cong (lines lines' : list pystr) (idxs : list nat) :
  (forall i, In i idxs -> nth i lines [] = nth i lines' []) ->
  find_question lines idxs = find_question lines' idxs.
Proof.
  induction idxs as [|i rest IH]; intros Hsame; cbn [find_question]; [reflexivity|].
  cbv zeta. rewrite <- (Hsame i (or_introl eq_refl)).
  rewrite IH by (intros j Hj; apply Hsame; now right). reflexivity.
Qed.

Lemma find_question_app_some (lines : list pystr) (idxs more : list nat)
    (r : nat * pystr) :
  find_question lines idxs = Some r -> find_question lines (idxs ++ more) = Some r.
Proof.
  induction idxs as [|i rest IH]; cbn [find_question app]; [discriminate|]. cbv zeta.
  destruct (truthy (strip (nth i lines []))); cbn [negb andb]; [|exact IH].
  destruct (Re.match_ option_start_re (strip (nth i lines []))); cbn [Re.matched];
    [trivial|].
  destruct (startswith ENTER_TO_SELECT (strip (nth i lines []))); cbn [negb];
    [exact IH | trivial].
Qed.

Lemma scan_options_cong (lines lines' : list pystr) (idxs : list nat) (st : scan_state) :
  (forall i, In i idxs -> nth i lines [] = nth i lines' []) ->
  scan_options lines idxs st = scan_options lines' idxs st.
Proof.
  revert st. induction idxs as [|i rest IH]; intros st Hsame; cbn [scan_options];
    [reflexivity|].
  cbv zeta. rewrite <- (Hsame i (or_introl eq_refl)).
  destruct (contains ENTER_TO_SELECT (nth i lines []) || contains TAB_ARROW (nth i lines []));
    [reflexivity|].
  apply IH. intros j Hj. apply Hsame. now right.
Qed.

(** The third loop does not read past a footer. *)
Lemma scan_options_stop (lines : list pystr) (idxs more : list nat) (i : nat)
    (st : scan_state) :
  In i idxs ->
  contains ENTER_TO_SELECT (nth i lines []) || contains TAB_ARROW (nth i lines []) = true ->
  scan_options lines (idxs ++ more) st = scan_options lines idxs st.
Proof.
  intros Hin Hfooter. revert st.
  induction idxs as [|j rest IH]; intros st; [destruct Hin|].
  cbn [scan_options app]. cbv zeta.
  destruct (contains ENTER_TO_SELECT (nth j lines []) || contains TAB_ARROW (nth j lines []))
    eqn:Hj; [reflexivity|].
  destruct Hin as [->|Hin]; [congruence|]. now apply IH.
Qed.

Lemma range_split (a b c : nat) :
  (a <= b)%nat -> (b <= c)%nat -> range a c = range a b ++ range b c.
Proof.
  intros Hab Hbc. unfold range.
  replace (c - a)%nat with ((b - a) + (c - b))%nat by lia.
  rewrite seq_app. do 2 f_equal. lia.
Qed.

Lemma in_range (a b i : nat) : In i (range a b) <-> (a <= i < b)%nat.
Proof. unfold range. rewrite in_seq. lia. Qed.

Lemma nth_last (lines : list pystr) (x : pystr) :
  last lines = Some x -> nth (List.length lines - 1) lines [] = x.
Proof.
  intros Hlast. apply last_Some in Hlast as [l' ->].
  rewrite length_app. simpl.
  replace (List.length l' + 1 - 1)%nat with (List.length l' + 0)%nat by lia.
  now rewrite app_nth2_plus.
Qed.

Lemma parse_lines_footer (lines extra : list pystr) (footer : pystr)
    (q : DetectedQuestion) :
  parse_lines lines = Some q ->
  last lines = Some footer ->
  contains ENTER_TO_SELECT footer || contains TAB_ARROW footer = true ->
  parse_lines (lines ++ extra) = Some q.
Proof.
  intros Hparse Hlast Hfooter. unfold parse_lines in *.
  destruct (find_header 0 lines) as [[header_idx header']|] eqn:Hh; [|discriminate].
  rewrite (find_header_app lines extra 0 _ Hh).
  assert (Hnth : forall i, (i < List.length lines)%nat ->
                   nth i (lines ++ extra) [] = nth i lines []).
  { intros i Hi. now apply app_nth1. }
  destruct (find_question lines _) as [[question_idx question']|] eqn:Hq;
    [|discriminate].
  set (b := Nat.min (header_idx + 10) (List.length lines)) in *.
  assert (Hb : (header_idx + 1 <= b)%nat).
  { destruct (le_lt_dec (header_idx + 1) b) as [Hle|Hlt]; [exact Hle|].
    unfold range in Hq. replace (b - (header_idx + 1))%nat with 0%nat in Hq by lia.
    discriminate. }
  rewrite (range_split (header_idx + 1) b) by (rewrite ?length_app; lia).
  rewrite (find_question_app_some _ _ _ (question_idx, question')).
  2:{ rewrite <- Hq. apply find_question_cong. intros i Hi.
      apply in_range in Hi. apply Hnth. lia. }
  cbv zeta in *.
  set (init := {| st_options := []; st_selected_index := 0%Z;
                  st_current_option := None |}) in *.
  assert (Hlen : (question_idx + 1 < List.length lines)%nat).
  { destruct (le_lt_dec (List.length lines) (question_idx + 1)) as [Hge|Hlt];
      [|exact Hlt].
    unfold range in Hparse.
    replace (List.length lines - (question_idx + 1))%nat with 0%nat in Hparse by lia.
    discriminate. }
  assert (Hscan : scan_options (lines ++ extra)
                    (range (question_idx + 1) (List.length (lines ++ extra))) init
                  = scan_options lines (range (question_idx + 1) (List.length lines)) init).
  { rewrite (range_split (question_idx + 1) (List.length lines))
      by (rewrite ?length_app; lia).
    rewrite (scan_options_stop _ _ _ (List.length lines - 1)).
    - apply scan_options_cong. intros i Hi. apply in_range in Hi. apply Hnth. lia.
    - apply in_range. lia.
    - rewrite Hnth by lia. now rewrite (nth_last lines footer Hlast). }
  rewrite Hscan. exact Hparse.
Qed.

(** X18: the parser does not read past the footer: when a question is read
    from a text whose last line has "Enter to select" or "Tab/Arrow" in it,
    the same question is read whatever lines follow. *)
Theorem text_below_footer_is_ignored (text more footer : pystr) (q : DetectedQuestion) :
  parse_multiple_choice text = Some q ->
  last (split LF text) = Some footer ->
  contains ENTER_TO_SELECT footer || contains TAB_ARROW footer = true ->
  parse_multiple_choice (text ++ LF :: more) = Some q.
Proof.
  intros Hparse Hlast Hfooter.
  rewrite parse_multiple_choice_lines in *. rewrite split_app_sep.
  now apply (parse_lines_footer _ _ footer).
Qed.

Lemma text_below_footer_is_ignored_witness :
  parse_multiple_choice (example_screen ++ LF :: U "☐ Another task")
    = Some example_question.
Proof.
  apply (text_below_footer_is_ignored example_screen (U "☐ Another task")
           (U "Enter to select · Tab/Arrow keys to navigate · Esc to cancel")).
  - vm_compute. reflexivity.
  - vm_compute. reflexivity.
  - vm_compute. reflexivity.
Defined.

(** ** The loops, line after line *)

Lemma seq_S_map (a n : nat) : seq (S a) n = map (fun i => (i + 1)%nat) (seq a n).
Proof.
  revert a. induction n as [|n IH]; intros a; simpl; [reflexivity|].
  rewrite IH. f_equal. lia.
Qed.

Lemma find_question_cons (l : pystr) (ls : list pystr) (idxs : list nat) :
  find_question (l :: ls) (map (fun i => (i + 1)%nat) idxs)
    = shift_index 1 (find_question ls idxs).
Proof. exact (find_question_shift [l] ls idxs). Qed.

Lemma find_question_nil (idxs : list nat) : find_question [] idxs = None.
Proof.
  induction idxs as [|i rest IH]; [reflexivity|]. cbn [find_question]. cbv zeta.
  destruct i; exact IH.
Qed.

Lemma find_question_seq (ls : list pystr) (n : nat) :
  find_question ls (seq 0 n) = question_in (take n ls).
Proof.
  revert n. induction ls as [|l ls IH]; intros n.
  - rewrite take_nil. apply find_question_nil.
  - destruct n as [|n]; [reflexivity|].
    cbn [seq take find_question question_in]. cbv zeta. cbn [nth].
    rewrite seq_S_map, find_question_cons, IH. reflexivity.
Qed.

Lemma range_from (a b : nat) :
  range a b = map (fun i => (i + a)%nat) (seq 0 (b - a)).
Proof.
  unfold range. generalize (b - a)%nat as n. intros n. revert a.
  induction n as [|n IH]; intros a; [reflexivity|].
  cbn [seq map]. f_equal. rewrite (seq_S_map 0), map_map, (IH (S a)).
  apply map_ext. intros i. lia.
Qed.

Lemma find_question_range (lines : list pystr) (a b : nat) :
  (a <= List.length lines)%nat ->
  find_question lines (range a b)
    = shift_index a (question_in (take (b - a) (drop a lines))).
Proof.
  intros Ha. rewrite range_from, <- find_question_seq.
  assert (Hlen : List.length (take a lines) = a) by (rewrite length_take; lia).
  rewrite <- (take_drop a lines) at 1.
  generalize (drop a lines) as tl. intros tl.
  revert Hlen. generalize (take a lines) as hd. intros hd <-.
  apply find_question_shift.
Qed.

Lemma scan_options_seq (ls : list pystr) (st : scan_state) :
  scan_options ls (seq 0 (List.length ls)) st = scan_list ls st.
Proof.
  revert st. induction ls as [|l ls IH]; intros st; [reflexivity|].
  cbn [List.length seq scan_options scan_list nth]. cbv zeta.
  destruct (contains ENTER_TO_SELECT l || contains TAB_ARROW l); [reflexivity|].
  rewrite seq_S_map. rewrite (scan_options_shift [l] ls). apply IH.
Qed.

Lemma scan_options_range (lines : list pystr) (a : nat) (st : scan_state) :
  (a <= List.length lines)%nat ->
  scan_options lines (range a (List.length lines)) st = scan_list (drop a lines) st.
Proof.
  intros Ha. rewrite range_from, <- scan_options_seq.
  rewrite length_drop.
  assert (Hlen : List.length (take a lines) = a) by (rewrite length_take; lia).
  rewrite <- (take_drop a lines) at 1.
  generalize (drop a lines) as tl. intros tl.
  revert Hlen. generalize (take a lines) as hd. intros hd <-.
  apply scan_options_shift.
Qed.

Lemma question_in_spec (ls : list pystr) (i : nat) (line : pystr) :
  question_in ls = Some (i, line) ->
  exists between question_line below,
    ls = between ++ question_line :: below /\ i = List.length between /\
    Forall passed_over between /\ line = strip question_line.
Proof.
  revert i. induction ls as [|l ls IH]; intros i; cbn [question_in]; [discriminate|].
  cbv zeta.
  assert (Hrest : passed_over l ->
            shift_index 1 (question_in ls) = Some (i, line) ->
            exists between question_line below,
              l :: ls = between ++ question_line :: below /\ i = List.length between /\
              Forall passed_over between /\ line = strip question_line).
  { intros Hl Hfound. destruct (question_in ls) as [[i' line']|]; [|discriminate].
    injection Hfound as <- <-.
    destruct (IH i' eq_refl) as (between & ql & below & -> & -> & Hbetween & Hline).
    exists (l :: between), ql, below.
    split; [reflexivity|]. split; [simpl; lia|]. split; [now constructor | exact Hline]. }
  destruct (truthy (strip l)) eqn:Htruthy; cbn [negb andb].
  - destruct (Re.match_ option_start_re (strip l)); cbn [Re.matched]; [discriminate|].
    destruct (startswith ENTER_TO_SELECT (strip l)) eqn:Hfooter; cbn [negb].
    + apply Hrest. now right.
    + intros [= <- <-]. exists [], l, ls.
      split; [reflexivity|]. split; [reflexivity|]. split; [constructor | reflexivity].
  - apply Hrest. now left.
Qed.

Lemma find_header_first (lines : list pystr) (i idx : nat) (h : pystr) :
  find_header i lines = Some (idx, h) ->
  exists above header_line below m,
    lines = above ++ header_line :: below /\ idx = (i + List.length above)%nat /\
    Forall (fun l => has CHECKBOX l || has CHECKED l = false
                     \/ Re.search header_re l = None) above /\
    has CHECKBOX header_line || has CHECKED header_line = true /\
    Re.search header_re header_line = Some m /\ h = strip (Re.group 1 m).
Proof.
  revert i. induction lines as [|line rest IH]; intros i; simpl; [discriminate|].
  assert (Hrest : has CHECKBOX line || has CHECKED line = false
                  \/ Re.search header_re line = None ->
            find_header (S i) rest = Some (idx, h) ->
            exists above header_line below m,
              line :: rest = above ++ header_line :: below /\
              idx = (i + List.length above)%nat /\
              Forall (fun l => has CHECKBOX l || has CHECKED l = false
                               \/ Re.search header_re l = None) above /\
              has CHECKBOX header_line || has CHECKED header_line = true /\
              Re.search header_re header_line = Some m /\ h = strip (Re.group 1 m)).
  { intros Hline H.
    destruct (IH _ H) as (above & hl & below & m & -> & -> & Habove & Hbox & Hm & Hh).
    exists (line :: above), hl, below, m.
    split; [reflexivity|]. split; [simpl; lia|]. split; [now constructor|].
    split; [exact Hbox|]. split; [exact Hm | exact Hh]. }
  destruct (has CHECKBOX line || has CHECKED line) eqn:Hbox; [|apply Hrest; now left].
  destruct (Re.search header_re line) as [m|] eqn:Hm; [|apply Hrest; now right].
  intros [= <- <-]. exists [], line, rest, m.
  split; [reflexivity|]. split; [simpl; lia|]. split; [constructor|].
  split; [exact Hbox|]. split; [exact Hm | reflexivity].
Qed.

(** X19: the layout of a text in which a question is read. The header
    comes from the first line that has a checkbox with something after it;
    the question text is the first line after it that is neither blank nor
    begins with "Enter to select", stripped, and it stands no more than nine
    lines below the header line. *)
Theorem parsed_layout (text : pystr) (q : DetectedQuestion) :
  parse_multiple_choice text = Some q ->
  exists above header_line between question_line below m,
    split LF text = above ++ header_line :: between ++ question_line :: below /\
    Forall (fun l => has CHECKBOX l || has CHECKED l = false
                     \/ Re.search header_re l = None) above /\
    has CHECKBOX header_line || has CHECKED header_line = true /\
    Re.search header_re header_line = Some m /\
    header q = strip (Re.group 1 m) /\
    (List.length between <= 8)%nat /\
    Forall passed_over between /\
    question q = strip question_line.
Proof.
  intros Hparse.
  destruct (parse_multiple_choice_some text q Hparse)
    as (header_idx & question_idx & st & Hh & Hq & _).
  destruct (find_header_first _ _ _ _ Hh)
    as (above & hl & below0 & m & Hlines & Hidx & Habove & Hbox & Hm & Hheader).
  simpl in Hidx. subst header_idx.
  rewrite find_question_range in Hq by (rewrite Hlines, length_app; simpl; lia).
  destruct (question_in _) as [[i line]|] eqn:Hin; [|discriminate].
  injection Hq as _ Hline. subst line.
  rewrite Hlines in Hin.
  replace (drop (List.length above + 1) (above ++ hl :: below0)) with below0 in Hin.
  2:{ rewrite drop_app_ge by lia.
      replace (List.length above + 1 - List.length above)%nat with 1%nat by lia.
      reflexivity. }
  destruct (question_in_spec _ _ _ Hin) as (between & ql & below1 & Htake & _ & Hbetween & Hql).
  exists above, hl, between, ql, (below1 ++ drop
    (Nat.min (List.length above + 10) (List.length (above ++ hl :: below0))
     - (List.length above + 1)) below0), m.
  split.
  { rewrite Hlines. do 2 f_equal.
    rewrite <- (take_drop (Nat.min (List.length above + 10)
                             (List.length (above ++ hl :: below0))
                           - (List.length above + 1)) below0) at 1.
    rewrite Htake, <- app_assoc. reflexivity. }
  split; [exact Habove|]. split; [exact Hbox|]. split; [exact Hm|].
  split; [exact Hheader|]. split; [|split; [exact Hbetween | exact Hql]].
  assert (Hlen : (List.length (between ++ ql :: below1) <= 9)%nat).
  { rewrite <- Htake, length_take. lia. }
  rewrite length_app in Hlen. simpl in Hlen. lia.
Qed.

Lemma parsed_layout_witness :
  exists above header_line between question_line below m,
    split LF example_screen = above ++ header_line :: between ++ question_line :: below /\
    Forall (fun l => has CHECKBOX l || has CHECKED l = false
                     \/ Re.search header_re l = None) above /\
    has CHECKBOX header_line || has CHECKED header_line = true /\
    Re.search header_re header_line = Some m /\
    header example_question = strip (Re.group 1 m) /\
    (List.length between <= 8)%nat /\
    Forall passed_over between /\
    question example_question = strip question_line.
Proof.
  apply (parsed_layout example_screen example_question). vm_compute. reflexivity.
Defined.

(** ** Reading back a screen laid out as documented *)

(** Greedy repetition takes the longest run of the class when the rest of
    the match succeeds after it. *)
Lemma star_max {R : Type} (p : N -> bool) (span rest : pystr) (pos : nat)
    (k : nat -> pystr -> option R) (r : R) :
  Forall (fun c => p c = true) span ->
  match rest with [] => True | c :: _ => p c = false end ->
  k (pos + List.length span)%nat rest = Some r ->
  Re.star p pos (span ++ rest) k = Some r.
Proof.
  intros Hspan Hrest. revert pos. induction Hspan as [|c span Hc _ IH]; intros pos Hk.
  - rewrite Nat.add_0_r in Hk. destruct rest as [|c rest]; simpl; [exact Hk|].
    now rewrite Hrest.
  - simpl. rewrite Hc. rewrite IH; [reflexivity|].
    rewrite <- Hk. f_equal. simpl. lia.
Qed.

Lemma decimal_is_plain (c : N) :
  isdecimal c = true ->
  isspace c = false /\ is_marker c = false /\ (46 =? c) = false /\ (c =? LF) = false.
Proof.
  intros Hdec.
  assert (Hne : forall w, isdecimal w = false -> (c =? w) = false /\ (w =? c) = false).
  { intros w Hw. split; apply N.eqb_neq; intros ->; congruence. }
  split; [|split; [|split]].
  - destruct (isspace c) eqn:Hs; [|reflexivity].
    apply has_true in Hs. unfold whitespace in Hs. simpl in Hs.
    repeat (destruct Hs as [<-|Hs]; [vm_compute in Hdec; discriminate|]).
    destruct Hs.
  - unfold is_marker. apply orb_false_iff.
    split; apply (Hne _); reflexivity.
  - apply (Hne 46). reflexivity.
  - apply (Hne LF). reflexivity.
Qed.

Lemma star_all {R : Type} (p : N -> bool) (s : pystr) (pos : nat)
    (k : nat -> pystr -> option R) (r : R) :
  Forall (fun c => p c = true) s ->
  k (pos + List.length s)%nat [] = Some r ->
  Re.star p pos s k = Some r.
Proof.
  intros Hs Hk. rewrite <- (app_nil_r s). now apply star_max.
Qed.

Lemma or_else_left {A : Type} (a b : option A) (r : A) :
  a = Some r -> match a with Some x => Some x | None => b end = Some r.
Proof. now intros ->. Qed.

Lemma run_option_tail {R : Type} (d : N) (ds : pystr) (c : N) (l : pystr)
    (pos : nat) (g : list (nat * pystr))
    (k : nat -> pystr -> list (nat * pystr) -> option R) (r : R) :
  isdecimal d = true -> Forall (fun x => isdecimal x = true) ds ->
  isspace c = false -> Forall (fun x => any_char x = true) (c :: l) ->
  k (pos + (List.length (d :: ds) + 2 + List.length (c :: l)))%nat []
    ((3%nat, c :: l) :: (2%nat, d :: ds) :: g) = Some r ->
  Re.run option_tail_re pos ((d :: ds) ++ [46; 32] ++ c :: l) g k = Some r.
Proof.
  intros Hd Hds Hc Hl Hk. apply Forall_cons in Hl as [Hcany Hl].
  unfold option_tail_re, Re.Plus, Re.Chr. cbn [Re.run app]. rewrite Hd.
  apply star_max; [exact Hds | reflexivity|]. cbv beta iota.
  change (46 =? 46) with true. cbv iota.
  apply (star_max isspace [32] (c :: l)); [now repeat constructor | exact Hc|].
  cbv beta iota. rewrite Hcany.
  apply star_all; [exact Hl|]. cbv beta iota.
  rewrite (take_ge (c :: l)) by (simpl; lia).
  change (d :: ds ++ 46 :: 32 :: c :: l) with ((d :: ds) ++ 46 :: 32 :: c :: l).
  rewrite (take_app_length' (d :: ds)) by (simpl; lia).
  rewrite <- Hk. f_equal. simpl. lia.
Qed.

Lemma option_re_match (marked : bool) (digits label : pystr) :
  truthy digits = true -> forallb isdecimal digits = true -> plain label ->
  exists e,
    Re.match_ option_re
      ((if marked then U "❯ " else U "  ") ++ digits ++ U ". " ++ label)
      = Some {| Re.m_end := e; Re.m_rest := [];
                Re.m_groups :=
                  [(3%nat, label); (2%nat, digits);
                   (1%nat, if marked then U "❯ " else U "  ")] |}.
Proof.
  intros Hdigits Hdec (Hlabel & [Hhead _] & Hlf).
  destruct digits as [|d ds]; [discriminate|]. destruct label as [|c l]; [discriminate|].
  pose proof (proj1 (List.forallb_forall isdecimal (d :: ds)) Hdec) as Hall.
  clear Hdec. rename Hall into Hdec.
  assert (Hd : isdecimal d = true) by (apply Hdec; now left).
  assert (Hds : Forall (fun x => isdecimal x = true) ds).
  { apply Forall_forall. intros x Hx. apply Hdec. right. now apply list_elem_of_In. }
  assert (Hc : isspace c = false) by now apply Hhead.
  assert (Hl : Forall (fun x => any_char x = true) (c :: l)).
  { apply Forall_forall. intros x Hx. unfold any_char. apply negb_true_iff.
    apply N.eqb_neq. intros ->. apply list_elem_of_In in Hx.
    apply has_true in Hx. congruence. }
  destruct (decimal_is_plain d Hd) as (Hdspace & Hdmarker & _ & _).
  change (U ". ") with [46; 32].
  eexists. unfold Re.match_, Re.match_at, option_re.
  change (Re.Seq (Re.Group 2 (Re.Plus isdecimal)) _) with option_tail_re.
  unfold Re.Opt. cbn [Re.run Nat.eqb]. destruct marked.
  - change (U "❯ ") with [SELECTOR; 32].
    apply (star_max isspace [] ([SELECTOR; 32] ++ (d :: ds) ++ [46; 32] ++ c :: l));
      [constructor | reflexivity|].
    cbv beta. cbn [app]. change (is_marker SELECTOR) with true. cbv iota.
    apply or_else_left.
    apply (star_max isspace [32] ((d :: ds) ++ [46; 32] ++ c :: l));
      [now repeat constructor | exact Hdspace|].
    cbv beta.
    apply run_option_tail; try assumption. cbn. reflexivity.
  - change (U "  ") with [32; 32].
    apply (star_max isspace [32; 32] ((d :: ds) ++ [46; 32] ++ c :: l));
      [now repeat constructor | exact Hdspace|].
    cbv beta. cbn [app]. rewrite Hdmarker. cbv iota.
    apply (star_max isspace [] ((d :: ds) ++ [46; 32] ++ c :: l));
      [constructor | exact Hdspace|].
    cbv beta.
    apply run_option_tail; try assumption. cbn. reflexivity.
Qed.

Lemma plain_chars (s : pystr) :
  plain s ->
  exists c l, s = c :: l /\ isspace c = false /\
              Forall (fun x => any_char x = true) (c :: l).
Proof.
  intros (Htruthy & [Hhead _] & Hlf). destruct s as [|c l]; [discriminate|].
  exists c, l. split; [reflexivity|]. split; [now apply Hhead|].
  apply Forall_forall. intros x Hx. unfold any_char. apply negb_true_iff.
  apply N.eqb_neq. intros ->. apply list_elem_of_In in Hx.
  apply has_true in Hx. congruence.
Qed.

Lemma header_re_match (header : pystr) :
  plain header ->
  exists m, Re.search header_re (U "☐ " ++ header) = Some m /\ Re.group 1 m = header.
Proof.
  intros Hplain. destruct (plain_chars header Hplain) as (c & l & -> & Hc & Hl).
  apply Forall_cons in Hl as [Hcany Hl].
  change (U "☐ " ++ c :: l) with (CHECKBOX :: 32 :: c :: l).
  assert (Hm : Re.match_at header_re 0 (CHECKBOX :: 32 :: c :: l)
               = Some {| Re.m_end := 3 + List.length l; Re.m_rest := [];
                         Re.m_groups := [(1%nat, c :: l)] |}).
  { unfold Re.match_at, header_re, Re.Plus. cbn [Re.run].
    change (is_checkbox CHECKBOX) with true. cbv iota.
    apply (star_max isspace [32] (c :: l)); [now repeat constructor | exact Hc|].
    cbv beta iota. rewrite Hcany.
    apply star_all; [exact Hl|]. cbv beta.
    rewrite (take_ge (c :: l)) by (simpl; lia). reflexivity. }
  eexists. unfold Re.search. cbn [Re.search_from]. rewrite Hm.
  split; reflexivity.
Qed.

Lemma strip_indent (s : pystr) : trimmed s -> strip (U "     " ++ s) = s.
Proof.
  intros Hs. unfold strip. change (U "     ") with [32; 32; 32; 32; 32].
  cbn [app lstrip]. change (isspace 32) with true. cbv iota.
  now apply trimmed_strip.
Qed.

Lemma scan_line_option (o : option_text) (st : scan_state) :
  readable_option o ->
  scan_line (option_line o) st =
    {| st_options := flush st;
       st_selected_index := if o_marked o then len (flush st) else st_selected_index st;
       st_current_option := Some (with_description (parsed_option o) []) |}.
Proof.
  intros (Hdigits & Hdec & _ & Hlabel & _ & _).
  unfold scan_line, option_line.
  destruct (option_re_match (o_marked o) (o_digits o) (o_label o) Hdigits Hdec Hlabel)
    as [e ->].
  cbv zeta. unfold Re.group. cbn [Re.m_groups find fst snd Nat.eqb].
  rewrite (trimmed_strip (o_label o)) by apply Hlabel.
  unfold with_description, parsed_option. cbn [number label is_selected is_text_input].
  now destruct (o_marked o).
Qed.

Lemma scan_line_described (o : option_text) (st : scan_state) (cur : QuestionOption) :
  truthy (o_description o) = true -> trimmed (o_description o) ->
  Re.match_ option_re (description_line o) = None ->
  st_current_option st = Some cur -> description cur = [] ->
  scan_line (description_line o) st =
    {| st_options := st_options st;
       st_selected_index := st_selected_index st;
       st_current_option := Some (with_description cur (o_description o)) |}.
Proof.
  intros Htruthy Htrim Hno Hcur Hempty. unfold scan_line. rewrite Hno, Hcur.
  unfold description_line. rewrite (strip_indent _ Htrim), Htruthy, Hempty.
  reflexivity.
Qed.

Lemma scan_list_option (o : option_text) (rest : list pystr) (st : scan_state) :
  readable_option o ->
  scan_list (option_rows o ++ rest) st = scan_list rest (after_option o st).
Proof.
  intros Ho. pose proof Ho as (_ & _ & _ & _ & Hfooter & Hdesc).
  unfold option_rows. cbn [app scan_list]. unfold no_footer in Hfooter.
  rewrite Hfooter, (scan_line_option o st Ho).
  destruct (truthy (o_description o)) eqn:Htruthy.
  - destruct (Hdesc eq_refl) as ((_ & Htrim & _) & Hfooter' & Hno).
    cbn [app scan_list]. unfold no_footer in Hfooter'. rewrite Hfooter'.
    rewrite (scan_line_described o _ (with_description (parsed_option o) []))
      by (try assumption; reflexivity).
    reflexivity.
  - cbn [app]. f_equal. unfold after_option. do 2 f_equal.
    unfold with_description, parsed_option. cbn.
    destruct (o_description o); [reflexivity | discriminate].
Qed.

Lemma scan_list_options (opts : list option_text) (rest : list pystr) (st : scan_state) :
  Forall readable_option opts ->
  scan_list (flat_map option_rows opts ++ rest) st
    = scan_list rest (fold_left (fun st o => after_option o st) opts st).
Proof.
  intros Hopts. revert st. induction Hopts as [|o opts Ho _ IH]; intros st;
    [reflexivity|].
  cbn [flat_map fold_left]. rewrite <- app_assoc.
  rewrite (scan_list_option o _ st Ho). apply IH.
Qed.

Lemma fold_after_options (opts : list option_text) (st : scan_state) :
  flush (fold_left (fun st o => after_option o st) opts st)
    = flush st ++ map parsed_option opts /\
  st_selected_index (fold_left (fun st o => after_option o st) opts st)
    = last_marked opts (List.length (flush st)) (st_selected_index st).
Proof.
  revert st. induction opts as [|o opts IH]; intros st; cbn [fold_left map last_marked].
  - now rewrite app_nil_r.
  - destruct (IH (after_option o st)) as [Hflush Hsel].
    assert (Hafter : flush (after_option o st) = flush st ++ [parsed_option o])
      by reflexivity.
    rewrite Hflush, Hsel, Hafter, length_app, <- app_assoc. cbn [List.length app].
    split; [reflexivity|].
    replace (List.length (flush st) + 1)%nat with (S (List.length (flush st))) by lia.
    reflexivity.
Qed.

Lemma parse_lines_documented (header question : pystr) (opts : list option_text) :
  plain header -> plain question ->
  Re.match_ option_start_re question = None ->
  startswith ENTER_TO_SELECT question = false ->
  opts <> [] -> Forall readable_option opts ->
  parse_lines (screen_rows header question opts) =
    Some {| header := header; question := question;
            options := map parsed_option opts;
            selected_index := last_marked opts 0 0;
            has_text_option := existsb is_text_input (map parsed_option opts) |}.
Proof.
  intros Hheader Hquestion Hnot_option Hnot_footer Hne Hopts.
  unfold parse_lines, screen_rows. cbn [app find_header].
  destruct (header_re_match header Hheader) as (m & -> & Hgroup).
  assert (Hbox : has CHECKBOX (U "☐ " ++ header) = true)
    by (rewrite has_app; reflexivity).
  rewrite Hbox. cbn [orb]. rewrite Hgroup.
  rewrite (trimmed_strip header) by apply Hheader.
  set (rows := flat_map option_rows opts ++ [[]; FOOTER]).
  match goal with |- context [find_question ?L ?I] =>
    assert (Hq : find_question L I = Some (2%nat, question))
  end.
  { rewrite find_question_range by (simpl; lia).
    match goal with |- context [take ?n _] =>
      assert (Hlen : n = S (S (n - 2)))
    end.
    { assert (2 <= List.length rows)%nat
        by (unfold rows; rewrite length_app; simpl; lia).
      cbn [List.length]. lia. }
    rewrite Hlen. cbn [drop take Nat.add question_in].
    cbv zeta. change (strip []) with (@nil N). cbn [truthy negb shift_index].
    rewrite (trimmed_strip question) by apply Hquestion.
    destruct Hquestion as (-> & _). cbn [negb andb].
    rewrite Hnot_option, Hnot_footer. reflexivity. }
  rewrite Hq.
  rewrite scan_options_range by (simpl; lia).
  cbn [drop Nat.add scan_list].
  change (contains ENTER_TO_SELECT [] || contains TAB_ARROW []) with false.
  cbv iota. unfold rows.
  change (scan_line [] {| st_options := []; st_selected_index := 0;
                          st_current_option := None |})
    with {| st_options := []; st_selected_index := 0%Z; st_current_option := None |}.
  rewrite (scan_list_options opts _ _ Hopts).
  destruct (fold_after_options opts
              {| st_options := []; st_selected_index := 0%Z; st_current_option := None |})
    as [Hflush Hsel].
  set (st := fold_left _ opts _) in *.
  cbn [scan_list].
  change (contains ENTER_TO_SELECT [] || contains TAB_ARROW []) with false.
  cbv iota.
  replace (scan_line [] st) with st.
  2:{ unfold scan_line. change (Re.match_ option_re []) with (@None Re.match_object).
      cbv iota. destruct (st_current_option st); reflexivity. }
  replace (contains ENTER_TO_SELECT FOOTER || contains TAB_ARROW FOOTER) with true
    by (vm_compute; reflexivity).
  cbv iota. rewrite Hflush, Hsel. cbn [flush st_options st_current_option app List.length].
  destruct opts as [|o opts]; [congruence|]. reflexivity.
Qed.

Lemma decimal_no_lf (digits : pystr) :
  forallb isdecimal digits = true -> has LF digits = false.
Proof.
  induction digits as [|d ds IH]; [reflexivity|]. cbn [forallb]. intros H.
  apply andb_true_iff in H as [Hd Hds]. unfold has. cbn [existsb].
  destruct (decimal_is_plain d Hd) as (_ & _ & _ & Hlf).
  rewrite N.eqb_sym, Hlf. now apply IH.
Qed.

Lemma screen_rows_no_lf (header question : pystr) (opts : list option_text) :
  plain header -> plain question -> Forall readable_option opts ->
  Forall (fun r => has LF r = false) (screen_rows header question opts).
Proof.
  intros (_ & _ & Hheader) (_ & _ & Hquestion) Hopts. unfold screen_rows.
  repeat (apply Forall_cons; split); try reflexivity; try assumption.
  apply Forall_app. split; [|now repeat constructor].
  induction Hopts as [|o opts Ho _ IH]; [constructor|].
  cbn [flat_map]. apply Forall_app. split; [|exact IH].
  destruct Ho as (_ & Hdec & _ & (_ & _ & Hlabel) & _ & Hdesc).
  unfold option_rows. constructor.
  - unfold option_line. rewrite !has_app, (decimal_no_lf _ Hdec), Hlabel.
    now destruct (o_marked o).
  - destruct (truthy (o_description o)); [|constructor].
    destruct (Hdesc eq_refl) as ((_ & _ & Hlf) & _).
    constructor; [|constructor]. unfold description_line.
    rewrite has_app, Hlf. reflexivity.
Qed.

(** X20: a screen laid out as the docstring of the parser shows (a
    checkbox and the header, a blank line, the question, a blank line, for
    each option a line with the selector or two spaces, the number, a dot
    and the label, and under it its description if it has one, then a blank
    line and the footer), with option numbers of at most 4300 digits, which
    [int] converts, is read back as written: same header, question, labels,
    descriptions and marks, in order; the selected index is the position of
    the last marked option, 0 when none is marked. *)
Theorem documented_screen_reads_back (header question : pystr)
    (opts : list option_text) :
  plain header -> plain question ->
  Re.match_ option_start_re question = None ->
  startswith ENTER_TO_SELECT question = false ->
  opts <> [] -> Forall readable_option opts ->
  parse_multiple_choice (join LF (screen_rows header question opts)) =
    Some {| header := header; question := question;
            options := map parsed_option opts;
            selected_index := last_marked opts 0 0;
            has_text_option := existsb is_text_input (map parsed_option opts) |}.
Proof.
  intros Hheader Hquestion Hnot_option Hnot_footer Hne Hopts.
  rewrite parse_multiple_choice_lines, split_join.
  - now apply parse_lines_documented.
  - discriminate.
  - now apply screen_rows_no_lf.
Qed.

Lemma plain_by_computation (s : pystr) :
  truthy s = true ->
  match head s with Some c => isspace c | None => false end = false ->
  match last s with Some c => isspace c | None => false end = false ->
  has LF s = false ->
  plain s.
Proof.
  intros Htruthy Hhead Hlast Hlf. split; [exact Htruthy|]. split; [|exact Hlf].
  split; intros c Hc; [now rewrite Hc in Hhead | now rewrite Hc in Hlast].
Qed.

Lemma documented_screen_reads_back_witness :
  screen_rows (U "Next task") (U "What should I work on?") example_options
    = example_rows /\
  parse_multiple_choice
      (join LF (screen_rows (U "Next task") (U "What should I work on?") example_options))
    = Some example_question.
Proof.
  split; [vm_compute; reflexivity|].
  rewrite (documented_screen_reads_back (U "Next task") (U "What should I work on?")
             example_options).
  - vm_compute. reflexivity.
  - apply plain_by_computation; vm_compute; reflexivity.
  - apply plain_by_computation; vm_compute; reflexivity.
  - vm_compute. reflexivity.
  - vm_compute. reflexivity.
  - discriminate.
  - repeat constructor; try (vm_compute; reflexivity);
      try (apply plain_by_computation; vm_compute; reflexivity);
      try discriminate.
Defined.

(** ** From the screen to the keys *)

Lemma parsed_selected_in_range (text : pystr) (q : DetectedQuestion) :
  parse_multiple_choice text = Some q ->
  (0 <= selected_index q < len (options q))%Z.
Proof.
  intros Hparse.
  destruct (parse_multiple_choice_some text q Hparse)
    as (header_idx & question_idx & st & _ & _ & Hst & Hopts & Hne & Hsel & _).
  assert (Hinv : scan_inv st).
  { rewrite Hst. apply scan_options_inv. repeat split; [reflexivity | now left]. }
  destruct Hinv as (Hnn & Hlt & _). rewrite Hsel, Hopts.
  split; [exact Hnn|]. destruct Hlt as [->|Hlt]; [|exact Hlt].
  rewrite <- Hopts. unfold len. destruct (options q); [congruence|]. simpl. lia.
Qed.

(** X21: on a session that shows a question with N options, any choice
    from 1 to N, given without text, is answered by the selection of the
    option at that place, with at most N keys sent, Enter last. *)
Theorem choice_on_parsed_screen (env : pystr) (app : App) (target : option pystr)
    (choice : Z) (text : option pystr) (s : Session) (screen_text : pystr)
    (q : DetectedQuestion) :
  target_session env app target = Some s ->
  get_screen_text s = Some screen_text ->
  parse_multiple_choice (strip_ansi screen_text) = Some q ->
  truthy_opt text = false ->
  (1 <= choice <= len (options q))%Z ->
  exists o,
    options q !! Z.to_nat (choice - 1) = Some o /\
    fst (send_answer env app (Some choice) text target)
      = Some (selected_option choice (label o)) /\
    (len (sent (snd (send_answer env app (Some choice) text target)))
       <= len (options q))%Z /\
    last (sent (snd (send_answer env app (Some choice) text target))) = Some ENTER.
Proof.
  intros Hsession Hscreen Hparse Htext Hchoice.
  pose proof (parsed_selected_in_range _ _ Hparse) as Hsel.
  unfold send_answer. rewrite Hsession, Hscreen, Hparse.
  rewrite (answer_question_choice q choice text Htext).
  destruct ((choice - 1 <? 0) || (choice - 1 >=? len (options q)))%Z eqn:Hout; [lia|].
  destruct (in_range_lookup q (choice - 1)) as [o Ho]; [lia|].
  cbv zeta. rewrite Ho. cbn [fst snd]. exists o.
  split; [reflexivity|]. split; [reflexivity|].
  rewrite sent_app. cbn [sent]. split; [|apply (last_sent_enter _ [])].
  rewrite len_snoc. destruct (navigate_cost (choice - 1 - selected_index q)) as [-> _].
  lia.
Qed.

Lemma choice_on_parsed_screen_witness :
  exists o,
    options example_question !! Z.to_nat (2 - 1) = Some o /\
    fst (send_answer EXAMPLE_ENV (one_tab [unreadable_session; example_session])
           (Some 2%Z) None None)
      = Some (selected_option 2 (label o)).
Proof.
  destruct (choice_on_parsed_screen EXAMPLE_ENV
              (one_tab [unreadable_session; example_session]) None 2 None
              example_session example_screen example_question)
    as (o & Ho & Hanswer & _); try (vm_compute; reflexivity).
  - vm_compute. split; discriminate.
  - exists o. split; [exact Ho | exact Hanswer].
Defined.
